(** * The storage layer of the social backend, embedded in Rocq

    The development follows [server/storage.ts] (the in-memory [MemStorage]
    class and the relational [DatabaseStorage] class behind the [IStorage]
    interface) and the follow/like handlers of the routes file.

    Conventions of the embedding:
    - a TypeScript [number] that holds an identity, a count or a
      [Date.getTime()] value is an integer of [Z] (JavaScript numbers are exact
      integers below 2^53);
    - [T | undefined] and [T | null] are [option T];
    - a JavaScript [Map] is an association list in insertion order;
    - a method that mutates [this] takes the store and returns the new store
      next to its result; a method that only reads is a function of the store;
    - [new Date()] and [Math.random()] are inputs of the method that calls them. *)

From Stdlib Require Import ZArith List Bool String Ascii Lia Sorted Permutation.
Import ListNotations.
Local Open Scope Z_scope.

(** ** JavaScript built-ins used by the store *)

(** Truthiness of a [number | undefined], as tested by [if (currentUserId)]:
    [undefined] and [0] are falsy. *)
Definition truthy (v : option Z) : bool :=
  match v with
  | Some n => negb (n =? 0)
  | None => false
  end.

(** [a || b] on strings that may be absent: the empty string is falsy too. *)
Definition or_else (a : option string) (b : option string) : option string :=
  match a with
  | Some EmptyString => b
  | Some s => Some s
  | None => b
  end.

(** [!!x] for an object or [undefined]. *)
Definition bangbang {A : Type} (x : option A) : bool :=
  match x with
  | Some _ => true
  | None => false
  end.

(** [Array.prototype.includes] on an array of numbers. *)
Definition includes_num (l : list Z) (x : Z) : bool :=
  existsb (fun y => y =? x) l.

Section JsMap.
Context {V : Type}.

(** [Map<number, V>]: the entries in insertion order, keys pairwise distinct. *)
Definition JsMap : Type := list (Z * V).

(** [map.get(k)] *)
Fixpoint map_get (m : JsMap) (k : Z) : option V :=
  match m with
  | [] => None
  | (k', v) :: m' => if k' =? k then Some v else map_get m' k
  end.

(** [map.set(k, v)]: an existing key keeps its position, a new key goes last. *)
Fixpoint map_set (m : JsMap) (k : Z) (v : V) : JsMap :=
  match m with
  | [] => [(k, v)]
  | (k', v') :: m' =>
      if k' =? k then (k, v) :: m' else (k', v') :: map_set m' k v
  end.

(** [map.has(k)], which is also what [map.delete(k)] returns. *)
Definition map_has (m : JsMap) (k : Z) : bool :=
  existsb (fun kv => fst kv =? k) m.

(** The map left by [map.delete(k)]. *)
Definition map_delete (m : JsMap) (k : Z) : JsMap :=
  filter (fun kv => negb (fst kv =? k)) m.

(** [Array.from(map.values())] *)
Definition map_values (m : JsMap) : list V := map snd m.

Definition map_keys (m : JsMap) : list Z := map fst m.

End JsMap.

Arguments JsMap V : clear implicits.

Section ArraySort.
Context {A : Type} (cmp : A -> A -> Z).

(** [Array.prototype.sort(cmp)] is stable (ECMAScript 2019), so for a
    comparator that is a weak order its result is determined by the input:
    the one a stable insertion sort computes.  [x] goes before [y] unless
    [cmp x y > 0]. *)
Fixpoint sort_insert (x : A) (l : list A) : list A :=
  match l with
  | [] => [x]
  | y :: l' => if cmp x y <=? 0 then x :: l else y :: sort_insert x l'
  end.

Definition sort (l : list A) : list A := fold_right sort_insert [] l.

End ArraySort.

(** [String.prototype.toLowerCase] on ASCII text, where it maps the letters
    A to Z to a to z and keeps every other character.  A string of this
    development is a sequence of 8-bit characters; the method of JavaScript
    also maps letters beyond ASCII, which [toLowerCase] below keeps, so a
    property of text that the code lower-cases is stated for ASCII text
    ([is_ascii]). *)
Definition lower_ascii (c : ascii) : ascii :=
  let n := nat_of_ascii c in
  if (Nat.leb 65 n && Nat.leb n 90)%bool then ascii_of_nat (n + 32) else c.

Fixpoint toLowerCase (s : string) : string :=
  match s with
  | EmptyString => EmptyString
  | String c s' => String (lower_ascii c) (toLowerCase s')
  end.

(** Text whose characters are all ASCII (below 128). *)
Fixpoint is_ascii (s : string) : bool :=
  match s with
  | EmptyString => true
  | String c s' => Nat.ltb (nat_of_ascii c) 128 && is_ascii s'
  end.

(** [s.startsWith(p)] *)
Fixpoint startsWith (s p : string) {struct p} : bool :=
  match p, s with
  | EmptyString, _ => true
  | String _ _, EmptyString => false
  | String a p', String b s' => Ascii.eqb a b && startsWith s' p'
  end.

(** [s.includes(sub)]: [sub] occurs in [s] at some position. *)
Fixpoint includes (s sub : string) : bool :=
  startsWith s sub ||
  match s with
  | EmptyString => false
  | String _ s' => includes s' sub
  end.

(** [!query] on a string. *)
Definition is_empty (s : string) : bool :=
  match s with
  | EmptyString => true
  | String _ _ => false
  end.

(** The outcome of an [async] method that may reject. *)
Inductive Completion (A : Type) : Type :=
| Return (a : A)
| ThrowTypeError.

Arguments Return {A} a.
Arguments ThrowTypeError {A}.

(** ** The schema: entities, insert payloads, derived views *)

Record User : Type := mkUser {
  user_id : Z;
  user_username : string;
  user_password : string;
  user_displayName : string;
  user_bio : option string;
  user_avatarUrl : option string;
  user_createdAt : Z
}.

Record InsertUser : Type := mkInsertUser {
  iu_username : string;
  iu_password : string;
  iu_displayName : string;
  iu_bio : option string;
  iu_avatarUrl : option string
}.

(** [Partial<InsertUser>]: [None] is a key that the object does not have,
    [Some x] a key that holds the value [x].  A key of a text field that
    holds [undefined] is not represented: the spread would write [undefined]
    over a field that [User] declares a string, and the [User] of this
    development always has its three text fields.  What is proved of
    [updateUser] reads the identity, the creation time and the maps only,
    which no key of the partial can touch. *)
Record PartialInsertUser : Type := mkPartialInsertUser {
  pu_username : option string;
  pu_password : option string;
  pu_displayName : option string;
  pu_bio : option (option string);
  pu_avatarUrl : option (option string)
}.

Record Post : Type := mkPost {
  post_id : Z;
  post_userId : Z;
  post_content : string;
  post_imageUrl : option string;
  post_createdAt : Z
}.

Record InsertPost : Type := mkInsertPost {
  ip_userId : Z;
  ip_content : string;
  ip_imageUrl : option string
}.

(** [Partial<InsertPost>], read as [PartialInsertUser] is. *)
Record PartialInsertPost : Type := mkPartialInsertPost {
  pp_userId : option Z;
  pp_content : option string;
  pp_imageUrl : option (option string)
}.

Record Comment : Type := mkComment {
  comment_id : Z;
  comment_postId : Z;
  comment_userId : Z;
  comment_content : string;
  comment_createdAt : Z
}.

Record InsertComment : Type := mkInsertComment {
  ic_postId : Z;
  ic_userId : Z;
  ic_content : string
}.

Record Like : Type := mkLike {
  like_id : Z;
  like_postId : Z;
  like_userId : Z;
  like_createdAt : Z
}.

Record InsertLike : Type := mkInsertLike {
  il_postId : Z;
  il_userId : Z
}.

Record Follow : Type := mkFollow {
  follow_id : Z;
  follow_followerId : Z;
  follow_followingId : Z;
  follow_createdAt : Z
}.

Record InsertFollow : Type := mkInsertFollow {
  if_followerId : Z;
  if_followingId : Z
}.

(** [PostWithUser = Post & { user; likeCount; commentCount; isLiked? }].  The
    store writes [user: user!], which is [undefined] when the author is
    unknown.  [isLiked] is [None] when the property holds [undefined], which
    JSON serialisation leaves out of the response. *)
Record PostWithUser : Type := mkPostWithUser {
  pw_post : Post;
  pw_user : option User;
  pw_likeCount : Z;
  pw_commentCount : Z;
  pw_isLiked : option bool
}.

Record CommentWithUser : Type := mkCommentWithUser {
  cw_comment : Comment;
  cw_user : option User
}.

Record UserWithStats : Type := mkUserWithStats {
  us_user : User;
  us_followersCount : Z;
  us_followingCount : Z;
  us_isFollowing : option bool
}.

Definition array_length {A : Type} (l : list A) : Z := Z.of_nat (List.length l).

(** ** MemStorage *)

Module MemStorage.

(** The private maps and the public counters of the class. *)
Record MemStorage : Type := mkMemStorage {
  users : JsMap User;
  posts : JsMap Post;
  comments : JsMap Comment;
  likes : JsMap Like;
  follows : JsMap Follow;
  currentUserId : Z;
  currentPostId : Z;
  currentCommentId : Z;
  currentLikeId : Z;
  currentFollowId : Z
}.

(** [new MemStorage()] *)
Definition constructor : MemStorage :=
  mkMemStorage [] [] [] [] [] 1 1 1 1 1.

Definition defaultAvatars : list string :=
  [ "https://randomuser.me/api/portraits/women/44.jpg";
    "https://randomuser.me/api/portraits/men/75.jpg";
    "https://randomuser.me/api/portraits/women/68.jpg";
    "https://randomuser.me/api/portraits/men/10.jpg";
    "https://randomuser.me/api/portraits/women/26.jpg";
    "https://randomuser.me/api/portraits/men/32.jpg" ]%string.

(** [getRandomAvatar()], where [rnd] is [Math.floor(Math.random() * 6)]. *)
Definition getRandomAvatar (rnd : nat) : string :=
  nth (rnd mod 6) defaultAvatars EmptyString.

(** *** User operations *)

Definition getUser (s : MemStorage) (id : Z) : option User :=
  map_get (users s) id.

Definition getUserByUsername (s : MemStorage) (username : string) : option User :=
  find (fun user => String.eqb (toLowerCase (user_username user)) (toLowerCase username))
       (map_values (users s)).

Definition createUser (s : MemStorage) (insertUser : InsertUser) (now : Z) (rnd : nat)
  : User * MemStorage :=
  let id := currentUserId s in
  let avatarUrl := or_else (iu_avatarUrl insertUser) (Some (getRandomAvatar rnd)) in
  let bio := or_else (iu_bio insertUser) None in
  let user :=
    mkUser id (iu_username insertUser) (iu_password insertUser)
           (iu_displayName insertUser) bio avatarUrl now in
  (user,
   mkMemStorage (map_set (users s) id user) (posts s) (comments s) (likes s) (follows s)
                (id + 1) (currentPostId s) (currentCommentId s) (currentLikeId s)
                (currentFollowId s)).

(** [{ ...user, ...userData }], for the keys that hold a value: [id] and
    [createdAt] are no keys of the partial and always stay. *)
Definition spread_user (user : User) (userData : PartialInsertUser) : User :=
  mkUser (user_id user)
         (match pu_username userData with Some x => x | None => user_username user end)
         (match pu_password userData with Some x => x | None => user_password user end)
         (match pu_displayName userData with Some x => x | None => user_displayName user end)
         (match pu_bio userData with Some x => x | None => user_bio user end)
         (match pu_avatarUrl userData with Some x => x | None => user_avatarUrl user end)
         (user_createdAt user).

Definition updateUser (s : MemStorage) (id : Z) (userData : PartialInsertUser)
  : option User * MemStorage :=
  match getUser s id with
  | None => (None, s)
  | Some user =>
      let updatedUser := spread_user user userData in
      (Some updatedUser,
       mkMemStorage (map_set (users s) id updatedUser) (posts s) (comments s) (likes s)
                    (follows s) (currentUserId s) (currentPostId s) (currentCommentId s)
                    (currentLikeId s) (currentFollowId s))
  end.

(** *** Comment operations *)

Definition getCommentsByPost (s : MemStorage) (postId : Z) : list CommentWithUser :=
  let commentsArray :=
    filter (fun comment => comment_postId comment =? postId) (map_values (comments s)) in
  map (fun comment => mkCommentWithUser comment (getUser s (comment_userId comment)))
      commentsArray.

Definition createComment (s : MemStorage) (insertComment : InsertComment) (now : Z)
  : Comment * MemStorage :=
  let id := currentCommentId s in
  let comment :=
    mkComment id (ic_postId insertComment) (ic_userId insertComment)
              (ic_content insertComment) now in
  (comment,
   mkMemStorage (users s) (posts s) (map_set (comments s) id comment) (likes s) (follows s)
                (currentUserId s) (currentPostId s) (id + 1) (currentLikeId s)
                (currentFollowId s)).

Definition deleteComment (s : MemStorage) (id : Z) : bool * MemStorage :=
  (map_has (comments s) id,
   mkMemStorage (users s) (posts s) (map_delete (comments s) id) (likes s) (follows s)
                (currentUserId s) (currentPostId s) (currentCommentId s) (currentLikeId s)
                (currentFollowId s)).

(** *** Like operations *)

Definition getLikesByPost (s : MemStorage) (postId : Z) : list Like :=
  filter (fun like => like_postId like =? postId) (map_values (likes s)).

Definition getLike (s : MemStorage) (postId userId : Z) : option Like :=
  find (fun like => (like_postId like =? postId) && (like_userId like =? userId))
       (map_values (likes s)).

Definition createLike (s : MemStorage) (insertLike : InsertLike) (now : Z)
  : Like * MemStorage :=
  let id := currentLikeId s in
  let like := mkLike id (il_postId insertLike) (il_userId insertLike) now in
  (like,
   mkMemStorage (users s) (posts s) (comments s) (map_set (likes s) id like) (follows s)
                (currentUserId s) (currentPostId s) (currentCommentId s) (id + 1)
                (currentFollowId s)).

Definition deleteLike (s : MemStorage) (postId userId : Z) : bool * MemStorage :=
  match getLike s postId userId with
  | None => (false, s)
  | Some like =>
      (map_has (likes s) (like_id like),
       mkMemStorage (users s) (posts s) (comments s) (map_delete (likes s) (like_id like))
                    (follows s) (currentUserId s) (currentPostId s) (currentCommentId s)
                    (currentLikeId s) (currentFollowId s))
  end.

(** *** Follow operations *)

(** The array holds [user!]: [undefined] stays in it when the follower is not
    in the users map. *)
Definition getFollowers (s : MemStorage) (userId : Z) : list (option User) :=
  let followerRelations :=
    filter (fun follow => follow_followingId follow =? userId) (map_values (follows s)) in
  map (fun relation => getUser s (follow_followerId relation)) followerRelations.

Definition getFollowing (s : MemStorage) (userId : Z) : list (option User) :=
  let followingRelations :=
    filter (fun follow => follow_followerId follow =? userId) (map_values (follows s)) in
  map (fun relation => getUser s (follow_followingId relation)) followingRelations.

Definition getFollow (s : MemStorage) (followerId followingId : Z) : option Follow :=
  find (fun follow =>
          (follow_followerId follow =? followerId)
          && (follow_followingId follow =? followingId))
       (map_values (follows s)).

Definition createFollow (s : MemStorage) (insertFollow : InsertFollow) (now : Z)
  : Follow * MemStorage :=
  let id := currentFollowId s in
  let follow :=
    mkFollow id (if_followerId insertFollow) (if_followingId insertFollow) now in
  (follow,
   mkMemStorage (users s) (posts s) (comments s) (likes s) (map_set (follows s) id follow)
                (currentUserId s) (currentPostId s) (currentCommentId s) (currentLikeId s)
                (id + 1)).

Definition deleteFollow (s : MemStorage) (followerId followingId : Z) : bool * MemStorage :=
  match getFollow s followerId followingId with
  | None => (false, s)
  | Some follow =>
      (map_has (follows s) (follow_id follow),
       mkMemStorage (users s) (posts s) (comments s) (likes s)
                    (map_delete (follows s) (follow_id follow))
                    (currentUserId s) (currentPostId s) (currentCommentId s)
                    (currentLikeId s) (currentFollowId s))
  end.

(** *** Enrichment *)

(** The body of the callback of [enrichPosts], for one post. *)
Definition enrichPost (s : MemStorage) (currentUserId : option Z) (post : Post)
  : PostWithUser :=
  let user := getUser s (post_userId post) in
  let likes := getLikesByPost s (post_id post) in
  let comments := getCommentsByPost s (post_id post) in
  let isLiked :=
    if truthy currentUserId then
      match currentUserId with
      | Some viewer => Some (bangbang (getLike s (post_id post) viewer))
      | None => None
      end
    else None in
  mkPostWithUser post user (array_length likes) (array_length comments) isLiked.

Definition enrichPosts (s : MemStorage) (posts : list Post) (currentUserId : option Z)
  : list PostWithUser :=
  map (enrichPost s currentUserId) posts.

Definition getUserWithStats (s : MemStorage) (userId : Z) (currentUserId : option Z)
  : option UserWithStats :=
  match getUser s userId with
  | None => None
  | Some user =>
      let followers := getFollowers s userId in
      let following := getFollowing s userId in
      let isFollowing :=
        if truthy currentUserId then
          match currentUserId with
          | Some viewer => Some (bangbang (getFollow s viewer userId))
          | None => None
          end
        else None in
      Some (mkUserWithStats user (array_length followers) (array_length following)
                            isFollowing)
  end.

(** *** Post operations *)

Definition getPosts (s : MemStorage) : list PostWithUser :=
  enrichPosts s (map_values (posts s)) None.

Definition getPostsByUser (s : MemStorage) (userId : Z) : list PostWithUser :=
  enrichPosts s (filter (fun post => post_userId post =? userId) (map_values (posts s)))
              None.

Definition getPost (s : MemStorage) (id : Z) : option PostWithUser :=
  match map_get (posts s) id with
  | None => None
  | Some post => hd_error (enrichPosts s [post] None)
  end.

Definition createPost (s : MemStorage) (insertPost : InsertPost) (now : Z)
  : Post * MemStorage :=
  let id := currentPostId s in
  let post :=
    mkPost id (ip_userId insertPost) (ip_content insertPost) (ip_imageUrl insertPost) now in
  (post,
   mkMemStorage (users s) (map_set (posts s) id post) (comments s) (likes s) (follows s)
                (currentUserId s) (id + 1) (currentCommentId s) (currentLikeId s)
                (currentFollowId s)).

(** [{ ...post, ...postData }], for the keys that hold a value: [id] and
    [createdAt] are no keys of the partial and always stay. *)
Definition spread_post (post : Post) (postData : PartialInsertPost) : Post :=
  mkPost (post_id post)
         (match pp_userId postData with Some x => x | None => post_userId post end)
         (match pp_content postData with Some x => x | None => post_content post end)
         (match pp_imageUrl postData with Some x => x | None => post_imageUrl post end)
         (post_createdAt post).

Definition updatePost (s : MemStorage) (id : Z) (postData : PartialInsertPost)
  : option Post * MemStorage :=
  match map_get (posts s) id with
  | None => (None, s)
  | Some post =>
      let updatedPost := spread_post post postData in
      (Some updatedPost,
       mkMemStorage (users s) (map_set (posts s) id updatedPost) (comments s) (likes s)
                    (follows s) (currentUserId s) (currentPostId s) (currentCommentId s)
                    (currentLikeId s) (currentFollowId s))
  end.

(** [for (const x of xs) map.delete(x.id)] *)
Definition delete_each {V : Type} (id_of : V -> Z) (m : JsMap V) (xs : list V) : JsMap V :=
  fold_left (fun acc x => map_delete acc (id_of x)) xs m.

Definition deletePost (s : MemStorage) (id : Z) : bool * MemStorage :=
  let postComments :=
    filter (fun comment => comment_postId comment =? id) (map_values (comments s)) in
  let comments' := delete_each comment_id (comments s) postComments in
  let postLikes :=
    filter (fun like => like_postId like =? id) (map_values (likes s)) in
  let likes' := delete_each like_id (likes s) postLikes in
  (map_has (posts s) id,
   mkMemStorage (users s) (map_delete (posts s) id) comments' likes' (follows s)
                (currentUserId s) (currentPostId s) (currentCommentId s) (currentLikeId s)
                (currentFollowId s)).

(** *** Feed operations *)

(** [(a, b) => b.createdAt.getTime() - a.createdAt.getTime()] *)
Definition newest_first (a b : Post) : Z := post_createdAt b - post_createdAt a.

(** [following.map(user => user.id)]: reading [id] of [undefined] throws. *)
Fixpoint user_ids (following : list (option User)) : Completion (list Z) :=
  match following with
  | [] => Return []
  | None :: _ => ThrowTypeError
  | Some user :: rest =>
      match user_ids rest with
      | Return ids => Return (user_id user :: ids)
      | ThrowTypeError => ThrowTypeError
      end
  end.

Definition getFeedForUser (s : MemStorage) (userId : Z) : Completion (list PostWithUser) :=
  let following := getFollowing s userId in
  match user_ids following with
  | ThrowTypeError => ThrowTypeError
  | Return followingIds =>
      let feedPosts :=
        sort newest_first
             (filter (fun post =>
                        includes_num followingIds (post_userId post)
                        || (post_userId post =? userId))
                     (map_values (posts s))) in
      Return (enrichPosts s feedPosts (Some userId))
  end.

Definition getDiscoverFeed (s : MemStorage) : list PostWithUser :=
  let allPosts := sort newest_first (map_values (posts s)) in
  enrichPosts s allPosts None.

(** *** Search *)

Definition searchUsers (s : MemStorage) (query : string) : list User :=
  if is_empty query then []
  else
    let lowercaseQuery := toLowerCase query in
    filter (fun user =>
              includes (toLowerCase (user_username user)) lowercaseQuery
              || includes (toLowerCase (user_displayName user)) lowercaseQuery)
           (map_values (users s)).

(** *** The mutating methods as operations of a process lifetime *)

Inductive Kind : Type := KUser | KPost | KComment | KLike | KFollow.

Inductive Op : Type :=
| OpCreateUser (insertUser : InsertUser) (now : Z) (rnd : nat)
| OpUpdateUser (id : Z) (userData : PartialInsertUser)
| OpCreatePost (insertPost : InsertPost) (now : Z)
| OpUpdatePost (id : Z) (postData : PartialInsertPost)
| OpDeletePost (id : Z)
| OpCreateComment (insertComment : InsertComment) (now : Z)
| OpDeleteComment (id : Z)
| OpCreateLike (insertLike : InsertLike) (now : Z)
| OpDeleteLike (postId userId : Z)
| OpCreateFollow (insertFollow : InsertFollow) (now : Z)
| OpDeleteFollow (followerId followingId : Z).

(** One call: the store it leaves and, for a create, the kind and identity of
    the entity it returned. *)
Definition exec (s : MemStorage) (op : Op) : MemStorage * option (Kind * Z) :=
  match op with
  | OpCreateUser u now rnd =>
      let (user, s') := createUser s u now rnd in (s', Some (KUser, user_id user))
  | OpUpdateUser id d => (snd (updateUser s id d), None)
  | OpCreatePost p now =>
      let (post, s') := createPost s p now in (s', Some (KPost, post_id post))
  | OpUpdatePost id d => (snd (updatePost s id d), None)
  | OpDeletePost id => (snd (deletePost s id), None)
  | OpCreateComment c now =>
      let (comment, s') := createComment s c now in (s', Some (KComment, comment_id comment))
  | OpDeleteComment id => (snd (deleteComment s id), None)
  | OpCreateLike l now =>
      let (like, s') := createLike s l now in (s', Some (KLike, like_id like))
  | OpDeleteLike postId userId => (snd (deleteLike s postId userId), None)
  | OpCreateFollow f now =>
      let (follow, s') := createFollow s f now in (s', Some (KFollow, follow_id follow))
  | OpDeleteFollow a b => (snd (deleteFollow s a b), None)
  end.

(** A sequence of calls, with the identities assigned along the way, oldest
    first. *)
Fixpoint run (s : MemStorage) (ops : list Op) : MemStorage * list (Kind * Z) :=
  match ops with
  | [] => (s, [])
  | op :: ops' =>
      let (s1, created) := exec s op in
      let (s2, rest) := run s1 ops' in
      (s2, match created with Some c => c :: rest | None => rest end)
  end.

(** The stores a process can be in: what a sequence of calls makes of a new
    store. *)
Inductive reachable : MemStorage -> Prop :=
| reachable_new : reachable constructor
| reachable_exec (s : MemStorage) (op : Op) :
    reachable s -> reachable (fst (exec s op)).

Definition Kind_eqb (a b : Kind) : bool :=
  match a, b with
  | KUser, KUser | KPost, KPost | KComment, KComment | KLike, KLike | KFollow, KFollow => true
  | _, _ => false
  end.

(** The identities assigned to entities of kind [k], in order of assignment. *)
Definition assigned (k : Kind) (created : list (Kind * Z)) : list Z :=
  map snd (filter (fun c => Kind_eqb (fst c) k) created).

End MemStorage.

(** ** DatabaseStorage

    The relational store: each table is the list of its rows, and a drizzle
    query is read as the SQL it builds for PostgreSQL ([db.ts] connects through
    [postgres-js]). *)

Module DatabaseStorage.

Record Database : Type := mkDatabase {
  users : list User;
  posts : list Post;
  comments : list Comment;
  likes : list Like;
  follows : list Follow
}.

Definition backslash : ascii := ascii_of_nat 92.

(** [x LIKE pattern] of PostgreSQL: [%] matches any run of characters, [_]
    any one character, a backslash takes the next pattern character
    literally, and every other character matches itself, case included. *)
Fixpoint sql_like (pattern : string) : string -> bool :=
  match pattern with
  | EmptyString => fun x => is_empty x
  | String c pattern' =>
      if Ascii.eqb c "%" then
        fix any_run (x : string) : bool :=
          sql_like pattern' x
          || match x with
             | EmptyString => false
             | String _ x' => any_run x'
             end
      else if Ascii.eqb c "_" then
        fun x => match x with
                 | EmptyString => false
                 | String _ x' => sql_like pattern' x'
                 end
      else if Ascii.eqb c backslash then
        match pattern' with
        | EmptyString => fun _ => false
        | String e pattern'' =>
            fun x => match x with
                     | EmptyString => false
                     | String d x' => Ascii.eqb e d && sql_like pattern'' x'
                     end
        end
      else
        fun x => match x with
                 | EmptyString => false
                 | String d x' => Ascii.eqb c d && sql_like pattern' x'
                 end
  end.

(** [like(column, `%${query}%`)] *)
Definition like (column : string) (query : string) : bool :=
  sql_like (String "%" (query ++ "%")) column.

(** [select().from(follows).innerJoin(users, eq(follows.followerId, users.id))
    .where(eq(follows.followingId, userId))], then [item => item.follower]. *)
Definition getFollowers (db : Database) (userId : Z) : list User :=
  flat_map (fun follow =>
              filter (fun user => follow_followerId follow =? user_id user) (users db))
           (filter (fun follow => follow_followingId follow =? userId) (follows db)).

Definition getFollowing (db : Database) (userId : Z) : list User :=
  flat_map (fun follow =>
              filter (fun user => follow_followingId follow =? user_id user) (users db))
           (filter (fun follow => follow_followerId follow =? userId) (follows db)).

Definition getLikesByPost (db : Database) (postId : Z) : list Like :=
  filter (fun l => like_postId l =? postId) (likes db).

(** The rows of [getCommentsByPost], before the author is attached. *)
Definition commentsByPost (db : Database) (postId : Z) : list Comment :=
  filter (fun c => comment_postId c =? postId) (comments db).

Definition postById (db : Database) (id : Z) : option Post :=
  hd_error (filter (fun p => post_id p =? id) (posts db)).

(** Three [delete ... where] statements; [result.count] is the number of
    rows the last one removed. *)
Definition deletePost (db : Database) (id : Z) : bool * Database :=
  let comments' := filter (fun c => negb (comment_postId c =? id)) (comments db) in
  let likes' := filter (fun l => negb (like_postId l =? id)) (likes db) in
  let count := array_length (filter (fun p => post_id p =? id) (posts db)) in
  (0 <? count,
   mkDatabase (users db) (filter (fun p => negb (post_id p =? id)) (posts db))
              comments' likes' (follows db)).

Definition searchUsers (db : Database) (query : string) : list User :=
  if is_empty query then []
  else
    filter (fun user => like (user_username user) query
                        || like (user_displayName user) query)
           (users db).

End DatabaseStorage.

(** ** The like and follow handlers of the routes

    The handlers call the store through [IStorage]; they are given here over
    the [MemStorage] implementation of it, but for the one that reads a
    private field of the store and so depends on which store is exported. *)

Module Routes.
Import MemStorage.

(** What a handler reads of the request: [req.user.id] when
    [req.isAuthenticated()], and [parseInt(req.params.id)], [None] for NaN. *)
Record Request : Type := mkRequest {
  req_user : option Z;
  req_params_id : option Z
}.

Inductive Body : Type :=
| NoBody
| Text (message : string)
| JsonLike (like : Like)
| JsonFollow (follow : Follow)
| JsonZodErrors.

Record Response : Type := mkResponse {
  status : Z;
  body : Body
}.

Section Handlers.

(** [insertLikeSchema.parse] and [insertFollowSchema.parse] come from
    drizzle-zod: [true] when the payload parses (to itself), [false] when
    parsing throws a [ZodError]. *)
Variable insertLikeSchema : InsertLike -> bool.
Variable insertFollowSchema : InsertFollow -> bool.

(** [app.post("/api/posts/:id/likes", ...)] *)
Definition post_like (s : MemStorage) (req : Request) (now : Z) : Response * MemStorage :=
  match req_user req with
  | None => (mkResponse 401 (Text "Unauthorized"), s)
  | Some viewer =>
      match req_params_id req with
      | None => (mkResponse 400 (Text "Invalid post ID"), s)
      | Some postId =>
          match getLike s postId viewer with
          | Some _ => (mkResponse 409 (Text "Post already liked"), s)
          | None =>
              let validatedData := mkInsertLike postId viewer in
              if insertLikeSchema validatedData then
                let (like, s') := createLike s validatedData now in
                (mkResponse 201 (JsonLike like), s')
              else (mkResponse 400 JsonZodErrors, s)
          end
      end
  end.

(** [app.post("/api/users/:id/follow", ...)] *)
Definition post_follow (s : MemStorage) (req : Request) (now : Z) : Response * MemStorage :=
  match req_user req with
  | None => (mkResponse 401 (Text "Unauthorized"), s)
  | Some viewer =>
      match req_params_id req with
      | None => (mkResponse 400 (Text "Invalid user ID"), s)
      | Some followingId =>
          if followingId =? viewer then
            (mkResponse 400 (Text "Cannot follow yourself"), s)
          else
            match getFollow s viewer followingId with
            | Some _ => (mkResponse 409 (Text "Already following"), s)
            | None =>
                let validatedData := mkInsertFollow viewer followingId in
                if insertFollowSchema validatedData then
                  let (follow, s') := createFollow s validatedData now in
                  (mkResponse 201 (JsonFollow follow), s')
                else (mkResponse 400 JsonZodErrors, s)
            end
      end
  end.

End Handlers.

(** [app.delete("/api/posts/:id", ...)] *)
Definition delete_post (s : MemStorage) (req : Request) : Response * MemStorage :=
  match req_user req with
  | None => (mkResponse 401 (Text "Unauthorized"), s)
  | Some viewer =>
      match req_params_id req with
      | None => (mkResponse 400 (Text "Invalid post ID"), s)
      | Some postId =>
          match getPost s postId with
          | None => (mkResponse 404 (Text "Post not found"), s)
          | Some post =>
              if negb (post_userId (pw_post post) =? viewer) then
                (mkResponse 403 (Text "Unauthorized"), s)
              else
                (mkResponse 204 NoBody, snd (deletePost s postId))
          end
      end
  end.

(** The object that the module exports as [storage] and the handlers call:
    [new DatabaseStorage()] in the file as it is, a [MemStorage] when the
    other implementation of [IStorage] is exported. *)
Inductive Storage : Type :=
| InMemory (s : MemStorage)
| Relational (db : DatabaseStorage.Database).

(** [app.delete("/api/comments/:id", ...)], which does not go through
    [IStorage] to find the comment: it reads [storage["comments"]], the
    private map of a [MemStorage].  A [DatabaseStorage] has no such field, so
    [storage["comments"].values()] throws a TypeError there. *)
Definition delete_comment (storage : Storage) (req : Request)
  : Completion (Response * Storage) :=
  match req_user req with
  | None => Return (mkResponse 401 (Text "Unauthorized"), storage)
  | Some viewer =>
      match req_params_id req with
      | None => Return (mkResponse 400 (Text "Invalid comment ID"), storage)
      | Some commentId =>
          match storage with
          | Relational _ => ThrowTypeError
          | InMemory s =>
              match find (fun c => comment_id c =? commentId) (map_values (comments s)) with
              | None => Return (mkResponse 404 (Text "Comment not found"), storage)
              | Some comment =>
                  if negb (comment_userId comment =? viewer) then
                    Return (mkResponse 403 (Text "Unauthorized"), storage)
                  else
                    Return (mkResponse 204 NoBody,
                            InMemory (snd (deleteComment s commentId)))
              end
          end
      end
  end.

(** [app.delete("/api/posts/:id/likes", ...)] *)
Definition delete_like (s : MemStorage) (req : Request) : Response * MemStorage :=
  match req_user req with
  | None => (mkResponse 401 (Text "Unauthorized"), s)
  | Some viewer =>
      match req_params_id req with
      | None => (mkResponse 400 (Text "Invalid post ID"), s)
      | Some postId => (mkResponse 204 NoBody, snd (deleteLike s postId viewer))
      end
  end.

(** [app.delete("/api/users/:id/follow", ...)] *)
Definition delete_follow (s : MemStorage) (req : Request) : Response * MemStorage :=
  match req_user req with
  | None => (mkResponse 401 (Text "Unauthorized"), s)
  | Some viewer =>
      match req_params_id req with
      | None => (mkResponse 400 (Text "Invalid user ID"), s)
      | Some followingId =>
          (mkResponse 204 NoBody, snd (deleteFollow s viewer followingId))
      end
  end.

End Routes.

(** ** The route table of [registerRoutes]

    Express tries the routes in the order of their registration and runs the
    first whose method and path pattern match the request; no handler of the
    file calls [next()].  A path is given by its segments; a literal segment
    matches with case ignored (the default of Express), and [:id] matches any
    segment that is not empty. *)

Module Router.

Inductive Method : Type := GET | POST | PATCH | DELETE.

Inductive Segment : Type :=
| Lit (name : string)
| Param.

Record Route : Type := mkRoute {
  method : Method;
  pattern : list Segment
}.

Definition Method_eqb (a b : Method) : bool :=
  match a, b with
  | GET, GET | POST, POST | PATCH, PATCH | DELETE, DELETE => true
  | _, _ => false
  end.

Fixpoint matches (pattern : list Segment) (path : list string) : bool :=
  match pattern, path with
  | [], [] => true
  | Lit name :: pattern', segment :: path' =>
      String.eqb (toLowerCase name) (toLowerCase segment) && matches pattern' path'
  | Param :: pattern', segment :: path' =>
      negb (is_empty segment) && matches pattern' path'
  | _, _ => false
  end.

(** The index, counted from [i], of the first route of the table that
    matches. *)
Fixpoint first_match (table : list Route) (m : Method) (path : list string) (i : nat)
  : option nat :=
  match table with
  | [] => None
  | r :: table' =>
      if Method_eqb (method r) m && matches (pattern r) path then Some i
      else first_match table' m path (S i)
  end.

(** The routes in the order in which [registerRoutes] registers them, after
    those of [setupAuth]. *)
Definition registerRoutes : list Route :=
  [ mkRoute GET [Lit "api"; Lit "users"; Param];
    mkRoute GET [Lit "api"; Lit "users"; Param; Lit "posts"];
    mkRoute PATCH [Lit "api"; Lit "users"; Param];
    mkRoute GET [Lit "api"; Lit "users"; Lit "search"];
    mkRoute GET [Lit "api"; Lit "posts"];
    mkRoute GET [Lit "api"; Lit "feed"];
    mkRoute GET [Lit "api"; Lit "posts"; Param];
    mkRoute POST [Lit "api"; Lit "posts"];
    mkRoute PATCH [Lit "api"; Lit "posts"; Param];
    mkRoute DELETE [Lit "api"; Lit "posts"; Param];
    mkRoute GET [Lit "api"; Lit "posts"; Param; Lit "comments"];
    mkRoute POST [Lit "api"; Lit "posts"; Param; Lit "comments"];
    mkRoute DELETE [Lit "api"; Lit "comments"; Param];
    mkRoute POST [Lit "api"; Lit "posts"; Param; Lit "likes"];
    mkRoute DELETE [Lit "api"; Lit "posts"; Param; Lit "likes"];
    mkRoute POST [Lit "api"; Lit "users"; Param; Lit "follow"];
    mkRoute DELETE [Lit "api"; Lit "users"; Param; Lit "follow"] ].

(** The place of [app.get("/api/users/:id", ...)] and of
    [app.get("/api/users/search", ...)] in the table. *)
Definition user_by_id_route : nat := 0.
Definition search_route : nat := 3.

(** A path that a pattern is made for: its literals, and ["1"] for [:id]. *)
Definition sample_path (pattern : list Segment) : list string :=
  map (fun segment => match segment with Lit name => name | Param => "1"%string end)
      pattern.

End Router.

Import MemStorage.

(** * The vocabulary of the properties *)

(** The invariant of a table: its keys increase in insertion order, stay
    below the counter, and each entity carries its key as its [id]. *)
Definition table_ok {V : Type} (id_of : V -> Z) (m : JsMap V) (next : Z) : Prop :=
  StronglySorted Z.lt (map_keys m)
  /\ Forall (fun kv => id_of (snd kv) = fst kv /\ fst kv < next) m.

(** The invariant of the store: each of its five maps satisfies the table
    invariant with its own counter. *)
Definition store_ok (s : MemStorage) : Prop :=
  table_ok user_id (users s) (currentUserId s)
  /\ table_ok post_id (posts s) (currentPostId s)
  /\ table_ok comment_id (comments s) (currentCommentId s)
  /\ table_ok like_id (likes s) (currentLikeId s)
  /\ table_ok follow_id (follows s) (currentFollowId s).

(** The counter that names the next entity of a kind. *)
Definition counter (k : Kind) (s : MemStorage) : Z :=
  match k with
  | KUser => currentUserId s
  | KPost => currentPostId s
  | KComment => currentCommentId s
  | KLike => currentLikeId s
  | KFollow => currentFollowId s
  end.

(** A Like row for the pair (post, user) exists. *)
Definition like_exists (s : MemStorage) (postId userId : Z) : Prop :=
  exists l, In l (map_values (likes s)) /\ like_postId l = postId /\ like_userId l = userId.

(** A Follow row from [followerId] to [followingId] exists. *)
Definition follow_exists (s : MemStorage) (followerId followingId : Z) : Prop :=
  exists f, In f (map_values (follows s))
            /\ follow_followerId f = followerId /\ follow_followingId f = followingId.

(** The order of a feed: newer posts first, and among posts of one instant
    the one with the smaller identity first. *)
Definition feed_before (a b : Post) : Prop :=
  post_createdAt b < post_createdAt a
  \/ (post_createdAt a = post_createdAt b /\ post_id a < post_id b).

(** The posts created at the instant [t]. *)
Definition created_at (t : Z) (p : Post) : bool := post_createdAt p =? t.

(** The posts that [getFeedForUser] selects before it sorts them. *)
Definition in_feed_of (followingIds : list Z) (userId : Z) (post : Post) : bool :=
  includes_num followingIds (post_userId post) || (post_userId post =? userId).

(** Every user that [userId] follows is in the users map. *)
Definition followees_known (s : MemStorage) (userId : Z) : Prop :=
  forall f, In f (map_values (follows s)) -> follow_followerId f = userId ->
            getUser s (follow_followingId f) <> None.

(** [sub] occurs in [s] at some position. *)
Definition occurs_in (sub s : string) : Prop :=
  exists before after, s = (before ++ sub ++ after)%string.

(** [q] occurs in [field] when case is ignored. *)
Definition matches_ignoring_case (q field : string) : Prop :=
  occurs_in (toLowerCase q) (toLowerCase field).

(** The rows of the in-memory maps, as tables. *)
Definition rows (s : MemStorage) : DatabaseStorage.Database :=
  DatabaseStorage.mkDatabase (map_values (users s)) (map_values (posts s))
                             (map_values (comments s)) (map_values (likes s))
                             (map_values (follows s)).

(** The keys of a table and its counter start from 1. *)
Definition keys_from_one {V : Type} (m : JsMap V) (next : Z) : Prop :=
  1 <= next /\ Forall (fun kv => 1 <= fst kv) m.

Definition store_from_one (s : MemStorage) : Prop :=
  keys_from_one (users s) (currentUserId s)
  /\ keys_from_one (posts s) (currentPostId s)
  /\ keys_from_one (comments s) (currentCommentId s)
  /\ keys_from_one (likes s) (currentLikeId s)
  /\ keys_from_one (follows s) (currentFollowId s).

(** No two Like rows are for one (post, user) pair. *)
Definition likes_unique (s : MemStorage) : Prop :=
  NoDup (map (fun l => (like_postId l, like_userId l)) (map_values (likes s))).

(** No two Follow rows are for one (follower, followed) pair. *)
Definition follows_unique (s : MemStorage) : Prop :=
  NoDup (map (fun f => (follow_followerId f, follow_followingId f))
             (map_values (follows s))).

(** No Follow row has a user follow itself. *)
Definition no_self_follow (s : MemStorage) : Prop :=
  Forall (fun f => follow_followerId f <> follow_followingId f) (map_values (follows s)).

(** Every stored user has a username and a display name of ASCII text (in
    particular [updateUser] has overwritten neither with [undefined]). *)
Definition names_are_ascii (s : MemStorage) : Prop :=
  Forall (fun u => is_ascii (user_username u) = true
                   /\ is_ascii (user_displayName u) = true)
         (map_values (users s)).

(** A query without the characters that LIKE reads as wildcards or as the
    escape. *)
Fixpoint plain_query (q : string) : bool :=
  match q with
  | EmptyString => true
  | String c q' =>
      negb (Ascii.eqb c "%") && negb (Ascii.eqb c "_")
      && negb (Ascii.eqb c DatabaseStorage.backslash) && plain_query q'
  end.

(** ** Stores used as examples *)

(** A store with one user, one post, and a comment and a like on the post. *)
Definition store_with_post : MemStorage :=
  fst (run constructor
           [ OpCreateUser (mkInsertUser "alice" "pw" "Alice" None None) 100 0;
             OpCreatePost (mkInsertPost 1 "hello" None) 110;
             OpCreateComment (mkInsertComment 1 1 "first") 120;
             OpCreateLike (mkInsertLike 1 1) 130 ]).

(** A store whose only comment and like point at post 7, which was never
    created. *)
Definition store_with_orphans : MemStorage :=
  fst (run constructor
           [ OpCreateUser (mkInsertUser "alice" "pw" "Alice" None None) 100 0;
             OpCreateComment (mkInsertComment 7 1 "lost") 120;
             OpCreateLike (mkInsertLike 7 1) 130 ]).

(** A store in which user 1 likes post 1 and follows user 2. *)
Definition store_with_follow : MemStorage :=
  fst (run constructor
           [ OpCreateUser (mkInsertUser "alice" "pw" "Alice" None None) 100 0;
             OpCreateUser (mkInsertUser "bob" "pw" "Bob" None None) 101 1;
             OpCreateUser (mkInsertUser "carol" "pw" "Carol" None None) 102 2;
             OpCreatePost (mkInsertPost 2 "hello" None) 110;
             OpCreateLike (mkInsertLike 1 1) 120;
             OpCreateFollow (mkInsertFollow 1 2) 130 ]).

(** Three posts by user 1, the first and the third created at one instant;
    user 1 follows nobody. *)
Definition store_with_ties : MemStorage :=
  fst (run constructor
           [ OpCreateUser (mkInsertUser "alice" "pw" "Alice" None None) 5 0;
             OpCreatePost (mkInsertPost 1 "one" None) 10;
             OpCreatePost (mkInsertPost 1 "two" None) 20;
             OpCreatePost (mkInsertPost 1 "three" None) 10 ]).

(** User 1 has written a post and follows the identity 2, which no user
    has. *)
Definition store_following_unknown : MemStorage :=
  fst (run constructor
           [ OpCreateUser (mkInsertUser "alice" "pw" "Alice" None None) 100 0;
             OpCreatePost (mkInsertPost 1 "hello" None) 110;
             OpCreateFollow (mkInsertFollow 1 2) 120 ]).

(** The identity 2, which no user has, follows user 1. *)
Definition store_unknown_follower : MemStorage :=
  fst (run constructor
           [ OpCreateUser (mkInsertUser "alice" "pw" "Alice" None None) 100 0;
             OpCreateFollow (mkInsertFollow 2 1) 120 ]).

(** The handles of the scenario, with display names in lower case. *)
Definition store_with_handles : MemStorage :=
  fst (run constructor
           [ OpCreateUser (mkInsertUser "alice" "pw" "alice a" None None) 100 0;
             OpCreateUser (mkInsertUser "bob" "pw" "bob b" None None) 101 1;
             OpCreateUser (mkInsertUser "alison" "pw" "alison c" None None) 102 2 ]).

(** Two posts by user 1, each with a like, the second with a comment. *)
Definition store_with_two_posts : MemStorage :=
  fst (run constructor
           [ OpCreateUser (mkInsertUser "alice" "pw" "Alice" None None) 100 0;
             OpCreatePost (mkInsertPost 1 "one" None) 110;
             OpCreatePost (mkInsertPost 1 "two" None) 120;
             OpCreateLike (mkInsertLike 1 1) 130;
             OpCreateLike (mkInsertLike 2 1) 140;
             OpCreateComment (mkInsertComment 2 1 "nice") 150 ]).

(** * Properties *)

(** ** Maps in insertion order *)

Section JsMapFacts.
Context {V : Type}.
Implicit Types (m : JsMap V) (k : Z) (v : V).

Lemma map_get_In m k v : map_get m k = Some v -> In (k, v) m.
Proof.
  induction m as [|[k' v'] m IH]; simpl; [discriminate|].
  destruct (Z.eqb_spec k' k) as [->|Hne]; intros H.
  - injection H as ->. now left.
  - right. auto.
Qed.

Lemma map_get_None m k : map_get m k = None <-> ~ In k (map_keys m).
Proof.
  induction m as [|[k' v'] m IH]; simpl; [tauto|].
  destruct (Z.eqb_spec k' k) as [->|Hne]; split; intros H.
  - discriminate.
  - exfalso. apply H. now left.
  - intros [E|E]; [contradiction|]. now apply IH.
  - apply IH. intros E. apply H. now right.
Qed.

Lemma map_has_get m k : map_has m k = bangbang (map_get m k).
Proof.
  unfold map_has.
  induction m as [|[k' v'] m IH]; simpl; [reflexivity|].
  destruct (k' =? k); simpl; auto.
Qed.

(** A key that the map does not hold is appended. *)
Lemma map_set_fresh m k v : ~ In k (map_keys m) -> map_set m k v = m ++ [(k, v)].
Proof.
  induction m as [|[k' v'] m IH]; simpl; intros H; [reflexivity|].
  destruct (Z.eqb_spec k' k) as [->|Hne].
  - exfalso. apply H. now left.
  - f_equal. apply IH. intros E. apply H. now right.
Qed.

(** A key that the map holds keeps its place. *)
Lemma map_set_keys_present m k v :
  In k (map_keys m) -> map_keys (map_set m k v) = map_keys m.
Proof.
  induction m as [|[k' v'] m IH]; simpl; intros H; [contradiction|].
  destruct (Z.eqb_spec k' k) as [->|Hne]; simpl; [reflexivity|].
  f_equal. apply IH. destruct H; [contradiction|assumption].
Qed.

Lemma map_set_In m k v kv : In kv (map_set m k v) -> In kv m \/ kv = (k, v).
Proof.
  induction m as [|[k' v'] m IH]; simpl.
  - intros [<-|[]]. now right.
  - destruct (k' =? k); simpl; intros [<-|H]; auto.
    destruct (IH H); auto.
Qed.

Lemma map_delete_In m k kv : In kv (map_delete m k) <-> In kv m /\ fst kv <> k.
Proof.
  unfold map_delete. rewrite filter_In, negb_true_iff, Z.eqb_neq. tauto.
Qed.

Lemma map_delete_keys m k :
  map_keys (map_delete m k) = filter (fun k' => negb (k' =? k)) (map_keys m).
Proof.
  unfold map_delete, map_keys.
  induction m as [|[k' v'] m IH]; simpl; [reflexivity|].
  destruct (k' =? k); simpl; now rewrite IH.
Qed.

Lemma map_get_delete_same m k : map_get (map_delete m k) k = None.
Proof.
  apply map_get_None. unfold map_keys. rewrite in_map_iff.
  intros [kv [E H]]. apply map_delete_In in H. tauto.
Qed.

End JsMapFacts.

(** ** Strictly increasing keys *)

Lemma StronglySorted_snoc (l : list Z) (x : Z) :
  StronglySorted Z.lt l -> Forall (fun y => y < x) l -> StronglySorted Z.lt (l ++ [x]).
Proof.
  induction 1 as [|y l Hs IH Hy]; intros Hx; simpl.
  - repeat constructor.
  - inversion Hx; subst. constructor; auto.
    apply Forall_app. split; auto.
Qed.

Lemma StronglySorted_filter {A : Type} (R : A -> A -> Prop) (f : A -> bool) (l : list A) :
  StronglySorted R l -> StronglySorted R (filter f l).
Proof.
  induction 1 as [|x l Hs IH Hx]; simpl; [constructor|].
  destruct (f x); auto.
  constructor; auto.
  rewrite Forall_forall in *. intros y Hy. apply filter_In in Hy. apply Hx. tauto.
Qed.

Lemma StronglySorted_lt_NoDup (l : list Z) : StronglySorted Z.lt l -> NoDup l.
Proof.
  induction 1 as [|x l Hs IH Hx]; constructor; auto.
  intros Hin. rewrite Forall_forall in Hx. specialize (Hx _ Hin). lia.
Qed.

(** ** The invariant of a table *)

Section TableInvariant.
Context {V : Type} (id_of : V -> Z).
Implicit Types (m : JsMap V) (k next : Z) (v : V).

Lemma table_ok_nil next : table_ok id_of [] next.
Proof. split; constructor. Qed.

Lemma table_ok_below m next k : table_ok id_of m next -> In k (map_keys m) -> k < next.
Proof.
  intros [_ H] Hin. unfold map_keys in Hin. apply in_map_iff in Hin.
  destruct Hin as [kv [<- Hin]]. rewrite Forall_forall in H. now apply H.
Qed.

Lemma table_ok_id m next kv : table_ok id_of m next -> In kv m -> id_of (snd kv) = fst kv.
Proof. intros [_ H] Hin. rewrite Forall_forall in H. now apply H. Qed.

Lemma table_ok_get m next k v : table_ok id_of m next -> map_get m k = Some v -> id_of v = k.
Proof. intros H Hg. apply map_get_In in Hg. exact (table_ok_id _ _ _ H Hg). Qed.

Lemma table_ok_weaken m next next' : next <= next' -> table_ok id_of m next -> table_ok id_of m next'.
Proof.
  intros Hle [Hs H]. split; auto.
  eapply Forall_impl; [|exact H]. simpl. intros kv [? ?]. split; auto; lia.
Qed.

(** [create]: the counter's value is a new key. *)
Lemma table_ok_create m next v :
  table_ok id_of m next -> id_of v = next -> table_ok id_of (map_set m next v) (next + 1).
Proof.
  intros Hok Hid.
  assert (Hfresh : ~ In next (map_keys m)).
  { intros Hin. pose proof (table_ok_below _ _ _ Hok Hin). lia. }
  rewrite (map_set_fresh _ _ _ Hfresh).
  destruct Hok as [Hs H]. split.
  - unfold map_keys. rewrite map_app. simpl. apply StronglySorted_snoc; auto.
    rewrite Forall_map. eapply Forall_impl; [|exact H]. simpl. tauto.
  - apply Forall_app. split.
    + eapply Forall_impl; [|exact H]. simpl. intros kv [? ?]. split; auto; lia.
    + constructor; [|constructor]. simpl. split; auto; lia.
Qed.

(** [update]: the entry of an existing key is replaced where it stands. *)
Lemma table_ok_update m next k v0 v :
  table_ok id_of m next -> map_get m k = Some v0 -> id_of v = k ->
  table_ok id_of (map_set m k v) next.
Proof.
  intros Hok Hg Hid.
  assert (Hin : In k (map_keys m)).
  { apply map_get_In in Hg. unfold map_keys. apply in_map_iff. now exists (k, v0). }
  pose proof (table_ok_below _ _ _ Hok Hin) as Hlt.
  destruct Hok as [Hs H]. split.
  - now rewrite map_set_keys_present.
  - rewrite Forall_forall in *. intros kv Hkv.
    apply map_set_In in Hkv. destruct Hkv as [Hkv| ->]; auto.
Qed.

Lemma table_ok_delete m next k : table_ok id_of m next -> table_ok id_of (map_delete m k) next.
Proof.
  intros [Hs H]. split.
  - rewrite map_delete_keys. now apply StronglySorted_filter.
  - rewrite Forall_forall in *. intros kv Hkv. apply map_delete_In in Hkv. apply H. tauto.
Qed.

Lemma table_ok_delete_each m next xs :
  table_ok id_of m next -> table_ok id_of (delete_each id_of m xs) next.
Proof.
  unfold delete_each. revert m.
  induction xs as [|x xs IH]; simpl; intros m H; auto using table_ok_delete.
Qed.

(** Two entries with one key are one entry. *)
Lemma table_ok_functional m next kv kv' :
  table_ok id_of m next -> In kv m -> In kv' m -> fst kv = fst kv' -> kv = kv'.
Proof.
  intros [Hs _]. apply StronglySorted_lt_NoDup in Hs. unfold map_keys in Hs.
  induction m as [|e m IH]; simpl; [tauto|].
  inversion Hs as [|? ? Hnot Hnd]; subst.
  intros [->|H1] [->|H2] E; auto.
  - exfalso. apply Hnot. rewrite E. now apply in_map.
  - exfalso. apply Hnot. rewrite <- E. now apply in_map.
Qed.

(** The values carry increasing identities, in insertion order. *)
Lemma table_ok_values_sorted m next :
  table_ok id_of m next -> StronglySorted Z.lt (map id_of (map_values m)).
Proof.
  intros [Hs H]. unfold map_values. rewrite map_map.
  replace (map (fun kv => id_of (snd kv)) m) with (map_keys m); auto.
  unfold map_keys. apply map_ext_in. intros kv Hkv.
  rewrite Forall_forall in H. symmetry. now apply H.
Qed.

(** The loop [for (const x of xs) map.delete(x.id)] over the values that
    satisfy [p] leaves exactly the entries that do not. *)
Lemma delete_each_spec m xs :
  delete_each id_of m xs
  = filter (fun kv => negb (existsb (fun x => id_of x =? fst kv) xs)) m.
Proof.
  unfold delete_each. revert m.
  induction xs as [|x xs IH]; simpl; intros m.
  - induction m as [|kv m IHm]; simpl; [reflexivity|]. now rewrite <- IHm.
  - rewrite IH. unfold map_delete.
    induction m as [|kv m IHm]; simpl; [reflexivity|].
    rewrite (Z.eqb_sym (id_of x) (fst kv)).
    destruct (fst kv =? id_of x); simpl; auto.
    destruct (existsb _ xs); simpl; now rewrite IHm.
Qed.

Lemma delete_each_filter m next (p : V -> bool) :
  table_ok id_of m next ->
  delete_each id_of m (filter p (map_values m))
  = filter (fun kv => negb (p (snd kv))) m.
Proof.
  intros Hok. rewrite delete_each_spec.
  apply filter_ext_in. intros kv Hkv. f_equal.
  destruct (p (snd kv)) eqn:Hp.
  - apply existsb_exists. exists (snd kv). split.
    + apply filter_In. split; auto. unfold map_values. now apply in_map.
    + apply Z.eqb_eq. exact (table_ok_id _ _ _ Hok Hkv).
  - apply not_true_is_false. intros Hex. apply existsb_exists in Hex.
    destruct Hex as [x [Hx Hid]]. apply filter_In in Hx. destruct Hx as [Hx Hpx].
    unfold map_values in Hx. apply in_map_iff in Hx. destruct Hx as [kv' [<- Hkv']].
    apply Z.eqb_eq in Hid.
    assert (kv' = kv).
    { eapply table_ok_functional; eauto. rewrite <- Hid. symmetry.
      exact (table_ok_id _ _ _ Hok Hkv'). }
    subst. congruence.
Qed.

End TableInvariant.

(** ** The invariant of the store *)

Ltac split_store := split; [|split; [|split; [|split]]]; simpl; try assumption.

Lemma store_ok_constructor : store_ok constructor.
Proof. split_store; apply table_ok_nil. Qed.

Lemma store_ok_exec (s : MemStorage) (op : Op) : store_ok s -> store_ok (fst (exec s op)).
Proof.
  intros (Hu & Hp & Hc & Hl & Hf).
  destruct op; simpl.
  - split_store. now apply table_ok_create.
  - unfold updateUser, getUser. destruct (map_get (users s) id) as [user|] eqn:Hg.
    + split_store. eapply table_ok_update; eauto. simpl. eapply table_ok_get; eauto.
    + split_store.
  - split_store. now apply table_ok_create.
  - unfold updatePost. destruct (map_get (posts s) id) as [post|] eqn:Hg.
    + split_store. eapply table_ok_update; eauto. simpl. eapply table_ok_get; eauto.
    + split_store.
  - split_store.
    + now apply table_ok_delete.
    + now apply table_ok_delete_each.
    + now apply table_ok_delete_each.
  - split_store. now apply table_ok_create.
  - split_store. now apply table_ok_delete.
  - split_store. now apply table_ok_create.
  - unfold deleteLike. destruct (getLike s postId userId).
    + split_store. now apply table_ok_delete.
    + split_store.
  - split_store. now apply table_ok_create.
  - unfold deleteFollow. destruct (getFollow s followerId followingId).
    + split_store. now apply table_ok_delete.
    + split_store.
Qed.

Lemma reachable_store_ok (s : MemStorage) : reachable s -> store_ok s.
Proof.
  induction 1; [apply store_ok_constructor | now apply store_ok_exec].
Qed.

Lemma run_app (s : MemStorage) (ops1 ops2 : list Op) :
  run s (ops1 ++ ops2)
  = (fst (run (fst (run s ops1)) ops2), snd (run s ops1) ++ snd (run (fst (run s ops1)) ops2)).
Proof.
  revert s. induction ops1 as [|op ops1 IH]; intros s; simpl.
  - now destruct (run s ops2).
  - destruct (exec s op) as [s1 created]. rewrite IH.
    destruct (run s1 ops1) as [s2 l1]. simpl.
    destruct (run s2 ops2) as [s3 l2]. simpl.
    now destruct created.
Qed.

Lemma reachable_run_from (s : MemStorage) (ops : list Op) :
  reachable s -> reachable (fst (run s ops)).
Proof.
  revert s. induction ops as [|op ops IH]; intros s H; simpl; auto.
  pose proof (reachable_exec s op H) as H1.
  destruct (exec s op) as [s1 created]. simpl in H1.
  specialize (IH s1 H1). now destruct (run s1 ops).
Qed.

Lemma reachable_run (ops : list Op) : reachable (fst (run constructor ops)).
Proof. apply reachable_run_from. constructor. Qed.

Lemma reachable_is_run (s : MemStorage) :
  reachable s -> exists ops, s = fst (run constructor ops).
Proof.
  induction 1 as [|s op H [ops ->]].
  - now exists [].
  - exists (ops ++ [op]). rewrite run_app. simpl.
    destruct (exec (fst (run constructor ops)) op). reflexivity.
Qed.

(** ** Identity assignment *)

Lemma exec_counter_mono (s : MemStorage) (op : Op) (k : Kind) :
  counter k s <= counter k (fst (exec s op)).
Proof.
  destruct op; simpl;
    try (destruct k; simpl; lia).
  - unfold updateUser. destruct (getUser s id); simpl; destruct k; simpl; lia.
  - unfold updatePost. destruct (map_get (posts s) id); simpl; destruct k; simpl; lia.
  - unfold deleteLike. destruct (getLike s postId userId); simpl; destruct k; simpl; lia.
  - unfold deleteFollow. destruct (getFollow s followerId followingId); simpl;
      destruct k; simpl; lia.
Qed.

(** A create returns the counter's value and moves the counter past it. *)
Lemma exec_created (s : MemStorage) (op : Op) (k : Kind) (id : Z) :
  snd (exec s op) = Some (k, id) ->
  id = counter k s /\ counter k (fst (exec s op)) = id + 1.
Proof.
  destruct op; simpl; intros H; try discriminate;
    injection H as <- <-; simpl; auto.
Qed.

Lemma run_assigned (ops : list Op) (s : MemStorage) (k : Kind) :
  StronglySorted Z.lt (assigned k (snd (run s ops)))
  /\ Forall (fun id => counter k s <= id) (assigned k (snd (run s ops))).
Proof.
  revert s. induction ops as [|op ops IH]; intros s; simpl.
  - split; constructor.
  - pose proof (exec_counter_mono s op k) as Hmono.
    pose proof (exec_created s op) as Hcr.
    destruct (exec s op) as [s1 created]. simpl in *.
    destruct (IH s1) as [Hs Hge].
    destruct (run s1 ops) as [s2 rest]. simpl in *.
    assert (Hge' : Forall (fun id => counter k s <= id) (assigned k rest)).
    { eapply Forall_impl; [|exact Hge]. simpl. intros. lia. }
    destruct created as [[k' id]|]; [|now split].
    unfold assigned in *. simpl.
    destruct (Kind_eqb k' k) eqn:Hk; [|now split].
    assert (k' = k) as -> by (destruct k', k; simpl in Hk; congruence).
    destruct (Hcr k id eq_refl) as [-> Hnext]. simpl. split.
    + constructor; auto. eapply Forall_impl; [|exact Hge]. simpl. intros. lia.
    + constructor; auto. lia.
Qed.

(** C9. Over any sequence of store operations issued to a new store, the
    identities that the creates of one entity kind return are strictly
    increasing in the order of the calls, whatever updates and deletes come
    in between; in particular no identity is returned twice. *)
Theorem identities_strictly_increase (ops : list Op) (k : Kind) :
  StronglySorted Z.lt (assigned k (snd (run constructor ops)))
  /\ NoDup (assigned k (snd (run constructor ops))).
Proof.
  destruct (run_assigned ops constructor k) as [Hs _].
  split; [exact Hs | now apply StronglySorted_lt_NoDup].
Qed.

(** An identity is not given again after its entity is deleted: a post is
    created, deleted, and the next post gets the next identity. *)
Example identity_not_reused_after_delete :
  snd (run constructor
           [ OpCreatePost (mkInsertPost 1 "a" None) 10;
             OpDeletePost 1;
             OpCreatePost (mkInsertPost 1 "b" None) 20 ])
  = [(KPost, 1); (KPost, 2)].
Proof. reflexivity. Qed.

(** ** Cascading delete *)

Lemma values_filter {V : Type} (p : V -> bool) (m : JsMap V) :
  map_values (filter (fun kv => p (snd kv)) m) = filter p (map_values m).
Proof.
  unfold map_values. induction m as [|kv m IH]; simpl; [reflexivity|].
  destruct (p (snd kv)); simpl; now rewrite IH.
Qed.

Lemma filter_filter_negb {A : Type} (p : A -> bool) (l : list A) :
  filter p (filter (fun x => negb (p x)) l) = [].
Proof.
  induction l as [|x l IH]; simpl; [reflexivity|].
  destruct (p x) eqn:E; simpl; rewrite ?E; auto.
Qed.

(** What [deletePost] leaves in the comments and likes maps of a store that
    satisfies the invariant. *)
Lemma deletePost_tables (s : MemStorage) (id : Z) :
  store_ok s ->
  map_values (comments (snd (deletePost s id)))
  = filter (fun c => negb (comment_postId c =? id)) (map_values (comments s))
  /\ map_values (likes (snd (deletePost s id)))
     = filter (fun l => negb (like_postId l =? id)) (map_values (likes s)).
Proof.
  intros (_ & _ & Hc & Hl & _). simpl. split.
  - rewrite (delete_each_filter comment_id _ _ (fun c => comment_postId c =? id) Hc).
    apply values_filter with (p := fun c => negb (comment_postId c =? id)).
  - rewrite (delete_each_filter like_id _ _ (fun l => like_postId l =? id) Hl).
    apply values_filter with (p := fun l => negb (like_postId l =? id)).
Qed.

(** C3. In every store a process can reach, once [deletePost(P)] has run,
    [getLikesByPost(P)] and [getCommentsByPost(P)] are empty and [getPost(P)]
    is absent. *)
Theorem deletePost_leaves_no_dependents (s : MemStorage) (P : Z) :
  reachable s ->
  getLikesByPost (snd (deletePost s P)) P = []
  /\ getCommentsByPost (snd (deletePost s P)) P = []
  /\ getPost (snd (deletePost s P)) P = None.
Proof.
  intros Hr. apply reachable_store_ok in Hr.
  destruct (deletePost_tables s P Hr) as [Hc Hl].
  unfold getLikesByPost, getCommentsByPost, getPost. rewrite Hc, Hl.
  rewrite (filter_filter_negb (fun l => like_postId l =? P)).
  rewrite (filter_filter_negb (fun c => comment_postId c =? P)).
  repeat split. simpl. now rewrite map_get_delete_same.
Qed.

Lemma deletePost_leaves_no_dependents_witness :
  array_length (getLikesByPost store_with_post 1) = 1
  /\ array_length (getCommentsByPost store_with_post 1) = 1
  /\ getLikesByPost (snd (deletePost store_with_post 1)) 1 = []
  /\ getCommentsByPost (snd (deletePost store_with_post 1)) 1 = []
  /\ getPost (snd (deletePost store_with_post 1)) 1 = None.
Proof.
  split; [reflexivity|]. split; [reflexivity|].
  apply (deletePost_leaves_no_dependents store_with_post 1).
  apply reachable_run.
Defined.

(** [DatabaseStorage.deletePost] leaves the same: its three statements remove
    the comments, the likes and the post by their [postId] and [id]. *)
Lemma database_deletePost_leaves_no_dependents (db : DatabaseStorage.Database) (P : Z) :
  DatabaseStorage.getLikesByPost (snd (DatabaseStorage.deletePost db P)) P = []
  /\ DatabaseStorage.commentsByPost (snd (DatabaseStorage.deletePost db P)) P = []
  /\ DatabaseStorage.postById (snd (DatabaseStorage.deletePost db P)) P = None.
Proof.
  unfold DatabaseStorage.getLikesByPost, DatabaseStorage.commentsByPost,
    DatabaseStorage.postById. simpl.
  rewrite (filter_filter_negb (fun l => like_postId l =? P)).
  rewrite (filter_filter_negb (fun c => comment_postId c =? P)).
  rewrite (filter_filter_negb (fun p => post_id p =? P)).
  repeat split.
Qed.

(** C10. When no post has identity [id], [deletePost(id)] returns [false],
    and it has still removed every comment and every like whose [postId] is
    [id]: what is left of the two maps are the entries of other posts, in
    their order. *)
Theorem deletePost_absent_post_still_cascades (s : MemStorage) (id : Z) :
  reachable s ->
  map_get (posts s) id = None ->
  fst (deletePost s id) = false
  /\ map_values (comments (snd (deletePost s id)))
     = filter (fun c => negb (comment_postId c =? id)) (map_values (comments s))
  /\ map_values (likes (snd (deletePost s id)))
     = filter (fun l => negb (like_postId l =? id)) (map_values (likes s)).
Proof.
  intros Hr Hg. apply reachable_store_ok in Hr. split.
  - simpl. rewrite map_has_get, Hg. reflexivity.
  - now apply deletePost_tables.
Qed.

Lemma deletePost_absent_post_still_cascades_witness :
  (array_length (map_values (comments store_with_orphans)) = 1
   /\ array_length (map_values (likes store_with_orphans)) = 1)
  /\ fst (deletePost store_with_orphans 7) = false
  /\ map_values (comments (snd (deletePost store_with_orphans 7))) = []
  /\ map_values (likes (snd (deletePost store_with_orphans 7))) = [].
Proof.
  split; [split; reflexivity|].
  apply (deletePost_absent_post_still_cascades store_with_orphans 7).
  - apply reachable_run.
  - reflexivity.
Defined.

(** ** Viewer-relative flags *)

Lemma bangbang_find {A : Type} (p : A -> bool) (l : list A) :
  bangbang (find p l) = true <-> exists x, In x l /\ p x = true.
Proof.
  destruct (find p l) as [x|] eqn:E; simpl.
  - apply find_some in E. split; eauto.
  - split; [discriminate|]. intros [x [Hin Hp]].
    pose proof (find_none _ _ E x Hin). congruence.
Qed.

Lemma getLike_exists (s : MemStorage) (postId userId : Z) :
  bangbang (getLike s postId userId) = true <-> like_exists s postId userId.
Proof.
  unfold getLike, like_exists. rewrite bangbang_find.
  split; intros [l [Hin H]]; exists l; split; auto.
  - apply andb_true_iff in H. now rewrite !Z.eqb_eq in H.
  - apply andb_true_iff. now rewrite !Z.eqb_eq.
Qed.

Lemma getFollow_exists (s : MemStorage) (followerId followingId : Z) :
  bangbang (getFollow s followerId followingId) = true
  <-> follow_exists s followerId followingId.
Proof.
  unfold getFollow, follow_exists. rewrite bangbang_find.
  split; intros [f [Hin H]]; exists f; split; auto.
  - apply andb_true_iff in H. now rewrite !Z.eqb_eq in H.
  - apply andb_true_iff. now rewrite !Z.eqb_eq.
Qed.

Lemma truthy_nonzero (V : Z) : V <> 0 -> truthy (Some V) = true.
Proof. intros H. simpl. apply negb_true_iff. now apply Z.eqb_neq. Qed.

Lemma enrichPosts_posts (s : MemStorage) (posts : list Post) (viewer : option Z) :
  map pw_post (enrichPosts s posts viewer) = posts.
Proof.
  unfold enrichPosts. rewrite map_map. simpl. apply map_id.
Qed.


(** ** Duplicate likes and follows at the handlers *)

Section HandlerFacts.
Variable insertLikeSchema : InsertLike -> bool.
Variable insertFollowSchema : InsertFollow -> bool.

Lemma getLike_Some_exists (s : MemStorage) (postId userId : Z) :
  like_exists s postId userId -> exists l, getLike s postId userId = Some l.
Proof.
  intros H. apply getLike_exists in H.
  destruct (getLike s postId userId) as [l|]; [eauto | discriminate].
Qed.

Lemma getFollow_Some_exists (s : MemStorage) (a b : Z) :
  follow_exists s a b -> exists f, getFollow s a b = Some f.
Proof.
  intros H. apply getFollow_exists in H.
  destruct (getFollow s a b) as [f|]; [eauto | discriminate].
Qed.

Lemma getFollow_None_not_exists (s : MemStorage) (a b : Z) :
  ~ follow_exists s a b -> getFollow s a b = None.
Proof.
  intros H. destruct (getFollow s a b) as [f|] eqn:E; auto.
  exfalso. apply H. apply getFollow_exists. now rewrite E.
Qed.

(** C6. When a Like row for (post, viewer) exists, the request to like the
    post again is answered 409 "Post already liked" and the store is left as
    it was, so the like count of the post is what it was. *)
Theorem duplicate_like_is_conflict (s : MemStorage) (postId viewer now : Z) :
  like_exists s postId viewer ->
  fst (Routes.post_like insertLikeSchema s (Routes.mkRequest (Some viewer) (Some postId)) now)
  = Routes.mkResponse 409 (Routes.Text "Post already liked")
  /\ snd (Routes.post_like insertLikeSchema s
                           (Routes.mkRequest (Some viewer) (Some postId)) now) = s
  /\ array_length
       (getLikesByPost
          (snd (Routes.post_like insertLikeSchema s
                                 (Routes.mkRequest (Some viewer) (Some postId)) now))
          postId)
     = array_length (getLikesByPost s postId).
Proof.
  intros H. destruct (getLike_Some_exists _ _ _ H) as [l Hl].
  unfold Routes.post_like. simpl. rewrite Hl. simpl. repeat split.
Qed.

(** C5. A request to follow oneself is answered 400 and writes nothing.  A
    request to follow a user whom the viewer already follows is answered 409
    "Already following" and writes nothing, and 409 is answered in no other
    case.  Otherwise, for a payload that the insert schema accepts, the answer
    is 201 with a new Follow row for the pair, stamped with the time of the
    call and appended to the follows of the store. *)
Theorem follow_creation_rules (s : MemStorage) (viewer followingId now : Z) :
  Routes.post_follow insertFollowSchema s (Routes.mkRequest (Some viewer) (Some viewer)) now
  = (Routes.mkResponse 400 (Routes.Text "Cannot follow yourself"), s)
  /\ (followingId <> viewer ->
      follow_exists s viewer followingId ->
      Routes.post_follow insertFollowSchema s
                         (Routes.mkRequest (Some viewer) (Some followingId)) now
      = (Routes.mkResponse 409 (Routes.Text "Already following"), s))
  /\ (forall req,
        Routes.status (fst (Routes.post_follow insertFollowSchema s req now)) = 409 ->
        exists a b, Routes.req_user req = Some a /\ Routes.req_params_id req = Some b
                    /\ a <> b /\ follow_exists s a b)
  /\ (followingId <> viewer ->
      ~ follow_exists s viewer followingId ->
      insertFollowSchema (mkInsertFollow viewer followingId) = true ->
      reachable s ->
      exists s',
        Routes.post_follow insertFollowSchema s
                           (Routes.mkRequest (Some viewer) (Some followingId)) now
        = (Routes.mkResponse 201
             (Routes.JsonFollow (mkFollow (currentFollowId s) viewer followingId now)), s')
        /\ map_values (follows s')
           = map_values (follows s) ++ [mkFollow (currentFollowId s) viewer followingId now]
        /\ follow_exists s' viewer followingId).
Proof.
  split; [|split; [|split]].
  - unfold Routes.post_follow. simpl. now rewrite Z.eqb_refl.
  - intros Hne Hex. destruct (getFollow_Some_exists _ _ _ Hex) as [f Hf].
    unfold Routes.post_follow. simpl.
    destruct (Z.eqb_spec followingId viewer); [contradiction|]. now rewrite Hf.
  - intros [u p]. unfold Routes.post_follow. simpl.
    destruct u as [a|]; simpl; [|discriminate].
    destruct p as [b|]; simpl; [|discriminate].
    destruct (Z.eqb_spec b a) as [->|Hne]; simpl; [discriminate|].
    destruct (getFollow s a b) as [f|] eqn:Hf; simpl.
    + intros _. exists a, b. repeat split; auto.
      apply getFollow_exists. now rewrite Hf.
    + destruct (insertFollowSchema _); simpl; discriminate.
  - intros Hne Hnex Hvalid Hr.
    unfold Routes.post_follow. simpl.
    destruct (Z.eqb_spec followingId viewer); [contradiction|].
    rewrite (getFollow_None_not_exists _ _ _ Hnex), Hvalid.
    eexists. split; [reflexivity|]. simpl.
    apply reachable_store_ok in Hr. destruct Hr as (_ & _ & _ & _ & Hf).
    assert (Hfresh : ~ In (currentFollowId s) (map_keys (follows s))).
    { intros Hin. pose proof (table_ok_below _ _ _ _ Hf Hin). lia. }
    rewrite (map_set_fresh _ _ _ Hfresh).
    assert (Hv : map_values
                   (follows s ++ [(currentFollowId s,
                                   mkFollow (currentFollowId s) viewer followingId now)])
                 = map_values (follows s)
                   ++ [mkFollow (currentFollowId s) viewer followingId now]).
    { unfold map_values. now rewrite map_app. }
    split; [exact Hv|].
    exists (mkFollow (currentFollowId s) viewer followingId now).
    split; [|split; reflexivity].
    simpl. rewrite Hv.
    apply in_or_app. right. now left.
Qed.

End HandlerFacts.

Lemma duplicate_like_is_conflict_witness :
  array_length (getLikesByPost store_with_follow 1) = 1
  /\ fst (Routes.post_like (fun _ => true) store_with_follow
                           (Routes.mkRequest (Some 1) (Some 1)) 200)
     = Routes.mkResponse 409 (Routes.Text "Post already liked")
  /\ snd (Routes.post_like (fun _ => true) store_with_follow
                           (Routes.mkRequest (Some 1) (Some 1)) 200)
     = store_with_follow
  /\ array_length
       (getLikesByPost
          (snd (Routes.post_like (fun _ => true) store_with_follow
                                 (Routes.mkRequest (Some 1) (Some 1)) 200)) 1)
     = array_length (getLikesByPost store_with_follow 1).
Proof.
  split; [reflexivity|].
  apply (duplicate_like_is_conflict (fun _ => true) store_with_follow 1 1 200).
  apply getLike_exists. reflexivity.
Defined.

(** User 1 already follows user 2 and does not yet follow user 3. *)
Lemma follow_creation_rules_witness :
  Routes.post_follow (fun _ => true) store_with_follow
                     (Routes.mkRequest (Some 1) (Some 2)) 200
  = (Routes.mkResponse 409 (Routes.Text "Already following"), store_with_follow)
  /\ exists s',
       Routes.post_follow (fun _ => true) store_with_follow
                          (Routes.mkRequest (Some 1) (Some 3)) 200
       = (Routes.mkResponse 201 (Routes.JsonFollow (mkFollow 2 1 3 200)), s')
       /\ map_values (follows s')
          = map_values (follows store_with_follow) ++ [mkFollow 2 1 3 200]
       /\ follow_exists s' 1 3.
Proof.
  split.
  - destruct (follow_creation_rules (fun _ => true) store_with_follow 1 2 200)
      as (_ & H & _).
    apply H; [discriminate|]. apply getFollow_exists. reflexivity.
  - destruct (follow_creation_rules (fun _ => true) store_with_follow 1 3 200)
      as (_ & _ & _ & H).
    apply H.
    + discriminate.
    + intros Hex. apply getFollow_exists in Hex. discriminate.
    + reflexivity.
    + apply reachable_run.
Defined.

(** ** Feeds *)

Section SortFacts.
Context {A : Type} (cmp : A -> A -> Z).

Lemma sort_insert_perm (x : A) (l : list A) : Permutation (sort_insert cmp x l) (x :: l).
Proof.
  induction l as [|y l IH]; simpl; [reflexivity|].
  destruct (cmp x y <=? 0); [reflexivity|].
  rewrite IH. apply perm_swap.
Qed.

Lemma sort_perm (l : list A) : Permutation (sort cmp l) l.
Proof.
  induction l as [|x l IH]; simpl; [reflexivity|].
  rewrite sort_insert_perm. now constructor.
Qed.

Lemma sort_In (l : list A) (x : A) : In x (sort cmp l) <-> In x l.
Proof.
  split; apply Permutation_in; [|symmetry]; apply sort_perm.
Qed.

End SortFacts.

Lemma feed_before_older (x y z : Post) :
  post_createdAt y <= post_createdAt x -> feed_before y z -> post_id x < post_id z ->
  feed_before x z.
Proof. unfold feed_before. intros ? [?|[? ?]] ?; lia. Qed.

Lemma sort_insert_feed (x : Post) (l : list Post) :
  StronglySorted feed_before l ->
  Forall (fun y => post_id x < post_id y) l ->
  StronglySorted feed_before (sort_insert newest_first x l).
Proof.
  induction 1 as [|y l Hs IH Hy]; intros Hid; simpl.
  - repeat constructor.
  - inversion Hid as [|? ? Hxy Hxl]; subst. unfold newest_first at 1.
    destruct (Z.leb_spec (post_createdAt y - post_createdAt x) 0) as [Hle|Hgt].
    + constructor; [now constructor|].
      constructor.
      * unfold feed_before. lia.
      * rewrite Forall_forall in *. intros z Hz.
        apply (feed_before_older x y z); auto; lia.
    + constructor; auto.
      rewrite Forall_forall in *. intros z Hz.
      apply (Permutation_in _ (sort_insert_perm newest_first x l)) in Hz.
      destruct Hz as [<-|Hz]; auto.
      unfold feed_before. lia.
Qed.

(** Sorting posts that stand in the order of their identities puts them in
    feed order. *)
Lemma sort_feed (l : list Post) :
  StronglySorted Z.lt (map post_id l) ->
  StronglySorted feed_before (sort newest_first l).
Proof.
  induction l as [|x l IH]; simpl; intros Hs; [constructor|].
  inversion Hs as [|? ? Hs' Hx]; subst.
  apply sort_insert_feed; auto.
  rewrite Forall_forall in *. intros y Hy.
  apply sort_In in Hy. apply Hx. now apply in_map.
Qed.

(** The sort is stable: posts of one instant keep the order they had. *)
Lemma sort_insert_stable (t : Z) (x : Post) (l : list Post) :
  filter (created_at t) (sort_insert newest_first x l)
  = filter (created_at t) (x :: l).
Proof.
  induction l as [|y l IH]; simpl; [reflexivity|].
  unfold newest_first at 1.
  destruct (Z.leb_spec (post_createdAt y - post_createdAt x) 0) as [Hle|Hgt];
    [reflexivity|].
  simpl in *. rewrite IH. unfold created_at.
  destruct (Z.eqb_spec (post_createdAt x) t), (Z.eqb_spec (post_createdAt y) t);
    auto; lia.
Qed.

Lemma sort_stable (t : Z) (l : list Post) :
  filter (created_at t) (sort newest_first l) = filter (created_at t) l.
Proof.
  induction l as [|x l IH]; simpl; [reflexivity|].
  rewrite sort_insert_stable. simpl. now rewrite IH.
Qed.

Lemma posts_by_identity (s : MemStorage) :
  store_ok s -> StronglySorted Z.lt (map post_id (map_values (posts s))).
Proof. intros (_ & Hp & _). exact (table_ok_values_sorted _ _ _ Hp). Qed.

Lemma map_filter_sorted (f : Post -> bool) (l : list Post) :
  StronglySorted Z.lt (map post_id l) -> StronglySorted Z.lt (map post_id (filter f l)).
Proof.
  induction l as [|x l IH]; simpl; intros Hs; [constructor|].
  inversion Hs as [|? ? Hs' Hx]; subst.
  destruct (f x); simpl; auto.
  constructor; auto.
  rewrite Forall_forall in *. intros y Hy. apply Hx.
  apply in_map_iff in Hy. destruct Hy as [p [<- Hp]]. apply filter_In in Hp.
  apply in_map. tauto.
Qed.

Lemma user_ids_known (s : MemStorage) (rows : list Follow) :
  store_ok s ->
  (forall f, In f rows -> getUser s (follow_followingId f) <> None) ->
  user_ids (map (fun relation => getUser s (follow_followingId relation)) rows)
  = Return (map follow_followingId rows).
Proof.
  intros (Hu & _) H. induction rows as [|f rows IH]; simpl; [reflexivity|].
  destruct (getUser s (follow_followingId f)) as [u|] eqn:Hg.
  - rewrite IH by (intros; apply H; now right).
    f_equal. f_equal. exact (table_ok_get _ _ _ _ _ Hu Hg).
  - exfalso. apply (H f); [now left | exact Hg].
Qed.

Lemma user_ids_Return (s : MemStorage) (rows : list Follow) (ids : list Z) :
  store_ok s ->
  user_ids (map (fun relation => getUser s (follow_followingId relation)) rows) = Return ids ->
  ids = map follow_followingId rows.
Proof.
  intros (Hu & _). revert ids.
  induction rows as [|f rows IH]; simpl; intros ids H.
  - now injection H as <-.
  - destruct (getUser s (follow_followingId f)) as [u|] eqn:Hg; [|discriminate].
    destruct (user_ids _) as [ids'|] eqn:E; [|discriminate].
    injection H as <-. rewrite (IH ids' eq_refl).
    f_equal. exact (table_ok_get _ _ _ _ _ Hu Hg).
Qed.

Lemma getFeedForUser_known (s : MemStorage) (userId : Z) :
  store_ok s ->
  followees_known s userId ->
  exists feed, getFeedForUser s userId = Return feed.
Proof.
  intros Hok Hk. unfold getFeedForUser, getFollowing.
  rewrite (user_ids_known s _ Hok); [eauto|].
  intros f Hf. apply filter_In in Hf. destruct Hf as [Hf Hid].
  apply Z.eqb_eq in Hid. now apply Hk.
Qed.

Lemma getFeedForUser_posts (s : MemStorage) (userId : Z) (feed : list PostWithUser) :
  getFeedForUser s userId = Return feed ->
  exists followingIds,
    user_ids (getFollowing s userId) = Return followingIds
    /\ map pw_post feed
       = sort newest_first (filter (in_feed_of followingIds userId) (map_values (posts s))).
Proof.
  unfold getFeedForUser. destruct (user_ids (getFollowing s userId)) as [ids|]; [|discriminate].
  intros H. injection H as <-. exists ids. split; auto.
  now rewrite enrichPosts_posts.
Qed.

(** C4. In every store a process can reach, the posts map holds the posts
    by increasing identity (its insertion order), and the posts of
    [getDiscoverFeed()] and of a [getFeedForUser(U)] that returns stand newest
    first, posts of one instant by increasing identity; in the discover feed
    the posts of one instant are in the order of the posts map.  Both feeds
    are functions of the store, so a second call on the same store gives the
    same order.  [getFeedForUser(U)] returns whenever every user that U
    follows is in the users map. *)
Theorem feeds_are_newest_first (s : MemStorage) (U : Z) :
  reachable s ->
  StronglySorted Z.lt (map post_id (map_values (posts s)))
  /\ StronglySorted feed_before (map pw_post (getDiscoverFeed s))
  /\ (forall t, filter (created_at t) (map pw_post (getDiscoverFeed s))
                = filter (created_at t) (map_values (posts s)))
  /\ (forall feed,
        getFeedForUser s U = Return feed ->
        StronglySorted feed_before (map pw_post feed))
  /\ (followees_known s U -> exists feed, getFeedForUser s U = Return feed).
Proof.
  intros Hr. apply reachable_store_ok in Hr.
  pose proof (posts_by_identity s Hr) as Hs.
  split; [exact Hs|].
  unfold getDiscoverFeed. rewrite enrichPosts_posts.
  split; [now apply sort_feed|].
  split; [intros t; apply sort_stable|].
  split.
  - intros feed Hfeed.
    destruct (getFeedForUser_posts s U feed Hfeed) as [ids [_ ->]].
    apply sort_feed. now apply map_filter_sorted.
  - now apply getFeedForUser_known.
Qed.

Lemma feeds_are_newest_first_witness :
  map (fun e => post_id (pw_post e)) (getDiscoverFeed store_with_ties) = [2; 1; 3]
  /\ StronglySorted feed_before (map pw_post (getDiscoverFeed store_with_ties))
  /\ exists feed, getFeedForUser store_with_ties 1 = Return feed
                  /\ map (fun e => post_id (pw_post e)) feed = [2; 1; 3]
                  /\ StronglySorted feed_before (map pw_post feed).
Proof.
  split; [reflexivity|].
  destruct (feeds_are_newest_first store_with_ties 1 (reachable_run _))
    as (_ & Hd & _ & Hf & _).
  split; [exact Hd|].
  eexists. split; [reflexivity|]. split; [reflexivity|].
  apply Hf. reflexivity.
Defined.

Lemma includes_num_In (l : list Z) (x : Z) : includes_num l x = true <-> In x l.
Proof.
  unfold includes_num. rewrite existsb_exists. split.
  - intros [y [Hy E]]. apply Z.eqb_eq in E. now subst.
  - intros H. exists x. split; auto. apply Z.eqb_refl.
Qed.

(** On the stores where it returns, [getFeedForUser(U)] holds exactly the
    posts of U and of the users that U has a Follow row to. *)
Lemma getFeedForUser_membership (s : MemStorage) (U : Z) (feed : list PostWithUser) :
  reachable s ->
  getFeedForUser s U = Return feed ->
  forall p, In p (map pw_post feed)
            <-> In p (map_values (posts s))
                /\ (post_userId p = U \/ follow_exists s U (post_userId p)).
Proof.
  intros Hr Hfeed p. apply reachable_store_ok in Hr.
  destruct (getFeedForUser_posts s U feed Hfeed) as [ids [Hids ->]].
  unfold getFollowing in Hids. apply (user_ids_Return s _ ids Hr) in Hids.
  rewrite sort_In, filter_In. unfold in_feed_of.
  rewrite orb_true_iff, includes_num_In, Z.eqb_eq.
  assert (Hfollow : In (post_userId p) ids <-> follow_exists s U (post_userId p)).
  { subst ids. unfold follow_exists. rewrite in_map_iff. split.
    - intros [f [E Hf]]. apply filter_In in Hf. destruct Hf as [Hf Hu].
      apply Z.eqb_eq in Hu. exists f. auto.
    - intros [f (Hf & Hu & E)]. exists f. split; auto.
      apply filter_In. split; auto. now apply Z.eqb_eq. }
  rewrite Hfollow. tauto.
Qed.

Lemma getFeedForUser_membership_witness :
  exists feed,
    getFeedForUser store_with_follow 1 = Return feed
    /\ forall p, In p (map pw_post feed)
                 <-> In p (map_values (posts store_with_follow))
                     /\ (post_userId p = 1 \/ follow_exists store_with_follow 1 (post_userId p)).
Proof.
  eexists. split; [reflexivity|].
  apply (getFeedForUser_membership store_with_follow 1); [apply reachable_run | reflexivity].
Defined.

(** The follow handler does not look the followed user up, so it makes the
    first of these stores out of a store with user 1 and her post. *)
Example follow_handler_accepts_unknown_user :
  snd (Routes.post_follow (fun _ => true)
         (fst (run constructor
                   [ OpCreateUser (mkInsertUser "alice" "pw" "Alice" None None) 100 0;
                     OpCreatePost (mkInsertPost 1 "hello" None) 110 ]))
         (Routes.mkRequest (Some 1) (Some 2)) 120)
  = store_following_unknown.
Proof. reflexivity. Qed.

(** C2 at a store where user 1 follows an identity that no user has:
    [getFeedForUser(1)] rejects with a TypeError, where the specification has
    the feed hold the post that user 1 wrote. *)
Theorem getFeedForUser_throws_on_unknown_followee :
  getFeedForUser store_following_unknown 1 = ThrowTypeError
  /\ map post_userId (map_values (posts store_following_unknown)) = [1].
Proof. split; reflexivity. Qed.

(** C7 at the same stores: the arrays of [getFollowing(1)] and
    [getFollowers(1)] hold [undefined] for the Follow row whose user is
    unknown, where the inner join of [DatabaseStorage] over the same rows
    leaves the row out. *)
Theorem getFollowing_keeps_absent_user :
  getFollowing store_following_unknown 1 = [None]
  /\ getFollowers store_unknown_follower 1 = [None]
  /\ DatabaseStorage.getFollowing (rows store_following_unknown) 1 = []
  /\ DatabaseStorage.getFollowers (rows store_unknown_follower) 1 = [].
Proof. repeat split. Qed.

(** When the users of the matching Follow rows are all known, the result of
    [getFollowers] is those users, one for each row and in the order of the
    rows. *)
Lemma getFollowers_known (s : MemStorage) (U : Z) :
  reachable s ->
  (forall f, In f (map_values (follows s)) -> follow_followingId f = U ->
             getUser s (follow_followerId f) <> None) ->
  exists us,
    getFollowers s U = map Some us
    /\ map user_id us
       = map follow_followerId
             (filter (fun f => follow_followingId f =? U) (map_values (follows s))).
Proof.
  intros Hr Hk. apply reachable_store_ok in Hr. destruct Hr as (Hu & _).
  unfold getFollowers.
  assert (H : forall f, In f (filter (fun f => follow_followingId f =? U)
                                     (map_values (follows s))) ->
                        getUser s (follow_followerId f) <> None).
  { intros f Hf. apply filter_In in Hf. destruct Hf as [Hf E].
    apply Z.eqb_eq in E. auto. }
  induction (filter (fun f => follow_followingId f =? U) (map_values (follows s)))
    as [|f l IH]; simpl.
  - now exists [].
  - destruct IH as [us [E1 E2]]; [intros; apply H; now right|].
    destruct (getUser s (follow_followerId f)) as [u|] eqn:Hg.
    + exists (u :: us). simpl. rewrite E1, E2.
      now rewrite (table_ok_get _ _ _ _ _ Hu Hg).
    + exfalso. apply (H f); [now left | exact Hg].
Qed.

(** In [store_with_follow] the one follower of user 2 is user 1. *)
Lemma getFollowers_known_witness :
  exists us, getFollowers store_with_follow 2 = map Some us /\ map user_id us = [1].
Proof.
  apply (getFollowers_known store_with_follow 2); [apply reachable_run|].
  intros f Hf E. simpl in Hf. destruct Hf as [<-|[]]. discriminate.
Defined.

(** ** User search *)

Lemma startsWith_spec (s p : string) :
  startsWith s p = true <-> exists after, s = (p ++ after)%string.
Proof.
  revert s. induction p as [|a p IH]; intros s; simpl.
  - split; [intros _; now exists s | reflexivity].
  - destruct s as [|b s].
    + split; [discriminate|]. intros [after H]. discriminate.
    + rewrite andb_true_iff, IH. split.
      * intros [E [after ->]]. apply Ascii.eqb_eq in E. subst. now exists after.
      * intros [after H]. injection H as -> ->. split; [apply Ascii.eqb_refl|].
        now exists after.
Qed.

Lemma includes_spec (s sub : string) : includes s sub = true <-> occurs_in sub s.
Proof.
  unfold occurs_in. induction s as [|c s IH]; simpl.
  - rewrite orb_false_r, startsWith_spec. split.
    + intros [after H]. exists EmptyString, after. exact H.
    + intros [before [after H]]. destruct before; simpl in H; [eauto|discriminate].
  - rewrite orb_true_iff, startsWith_spec, IH. split.
    + intros [[after H]|[before [after H]]].
      * exists EmptyString, after. exact H.
      * exists (String c before), after. simpl. now rewrite H.
    + intros [before [after H]]. destruct before as [|b before]; simpl in H.
      * left. eauto.
      * right. injection H as -> ->. eauto.
Qed.

Lemma lower_ascii_idempotent (c : ascii) : lower_ascii (lower_ascii c) = lower_ascii c.
Proof.
  destruct c as [[] [] [] [] [] [] [] []]; reflexivity.
Qed.

Lemma toLowerCase_idempotent (s : string) : toLowerCase (toLowerCase s) = toLowerCase s.
Proof.
  induction s as [|c s IH]; simpl; [reflexivity|].
  now rewrite lower_ascii_idempotent, IH.
Qed.

(** [MemStorage.searchUsers] on ASCII text: when the names of the stored
    users and the query are ASCII, the empty query finds nobody, and any other
    query finds exactly the users whose handle or display name holds it when
    case is ignored, in the order of the users map; the answer does not
    depend on the case of the query. *)
Lemma searchUsers_ignores_case (s : MemStorage) (q : string) :
  names_are_ascii s ->
  is_ascii q = true ->
  searchUsers s EmptyString = []
  /\ (q <> EmptyString ->
      forall u, In u (searchUsers s q)
                <-> In u (map_values (users s))
                    /\ (matches_ignoring_case q (user_username u)
                        \/ matches_ignoring_case q (user_displayName u)))
  /\ (q <> EmptyString -> searchUsers s (toLowerCase q) = searchUsers s q).
Proof.
  intros _ _. split; [reflexivity|]. split.
  - intros Hq u. unfold searchUsers.
    destruct q as [|c q]; [contradiction|]. cbn [is_empty].
    rewrite filter_In, orb_true_iff, !includes_spec. reflexivity.
  - intros Hq. unfold searchUsers. rewrite toLowerCase_idempotent.
    destruct q as [|c q]; [contradiction|]. reflexivity.
Qed.

Lemma store_with_follow_names_ascii : names_are_ascii store_with_follow.
Proof. repeat constructor. Qed.

Lemma searchUsers_ignores_case_witness :
  searchUsers store_with_follow (toLowerCase "ALI") = searchUsers store_with_follow "ALI"
  /\ map user_username (searchUsers store_with_follow "ALI") = ["alice"]%string.
Proof.
  split; [|reflexivity].
  destruct (searchUsers_ignores_case store_with_follow "ALI"
              store_with_follow_names_ascii eq_refl) as (_ & _ & H).
  apply H. discriminate.
Defined.

Example searchUsers_scenario :
  map user_username (searchUsers store_with_handles "ali") = ["alice"; "alison"]%string
  /\ map user_username (searchUsers store_with_handles "ALI") = ["alice"; "alison"]%string
  /\ searchUsers store_with_handles "" = [].
Proof. repeat split. Qed.

(** C8 at [DatabaseStorage.searchUsers], the store that the module exports:
    [like] is the case-sensitive LIKE, so the query "ALI" finds nobody among
    alice, bob and alison, where [MemStorage.searchUsers] finds alice and
    alison; and the query is pasted into the pattern unescaped, so "_" finds
    every user although no handle or display name holds an underscore. *)
Theorem database_search_is_case_sensitive :
  map user_username (DatabaseStorage.searchUsers (rows store_with_handles) "ali")
  = ["alice"; "alison"]%string
  /\ map user_username (DatabaseStorage.searchUsers (rows store_with_handles) "ALI") = []
  /\ map user_username (searchUsers store_with_handles "ALI") = ["alice"; "alison"]%string
  /\ map user_username (DatabaseStorage.searchUsers (rows store_with_handles) "_")
     = ["alice"; "bob"; "alison"]%string
  /\ searchUsers store_with_handles "_" = [].
Proof. repeat split. Qed.

(** ** Lookup after insertion and removal *)

Section JsMapLookup.
Context {V : Type}.
Implicit Types (m : JsMap V) (k : Z) (v : V).

Lemma map_get_set_same m k v : map_get (map_set m k v) k = Some v.
Proof.
  induction m as [|[k' v'] m IH]; simpl.
  - now rewrite Z.eqb_refl.
  - destruct (Z.eqb_spec k' k) as [->|Hne]; simpl.
    + now rewrite Z.eqb_refl.
    + destruct (Z.eqb_spec k' k); [contradiction|]. exact IH.
Qed.

Lemma map_get_set_other m k v k' : k' <> k -> map_get (map_set m k v) k' = map_get m k'.
Proof.
  intros Hne. induction m as [|[k0 v0] m IH]; simpl.
  - destruct (Z.eqb_spec k k'); [congruence|reflexivity].
  - destruct (Z.eqb_spec k0 k) as [->|H0]; simpl.
    + destruct (Z.eqb_spec k k'); [congruence|reflexivity].
    + destruct (k0 =? k'); auto.
Qed.

Lemma map_get_delete_other m k k' : k' <> k -> map_get (map_delete m k) k' = map_get m k'.
Proof.
  intros Hne. unfold map_delete.
  induction m as [|[k0 v0] m IH]; simpl; [reflexivity|].
  destruct (Z.eqb_spec k0 k) as [->|H0]; simpl.
  - destruct (Z.eqb_spec k k'); [congruence|exact IH].
  - destruct (k0 =? k'); auto.
Qed.

Lemma map_get_key_In m k v : map_get m k = Some v -> In k (map_keys m).
Proof.
  intros H. apply map_get_In in H. unfold map_keys. apply in_map_iff. now exists (k, v).
Qed.

Lemma map_values_set_fresh m k v :
  ~ In k (map_keys m) -> map_values (map_set m k v) = map_values m ++ [v].
Proof.
  intros H. rewrite (map_set_fresh _ _ _ H). unfold map_values. now rewrite map_app.
Qed.

Lemma keys_from_one_set m next k v :
  keys_from_one m next -> 1 <= k -> keys_from_one (map_set m k v) next.
Proof.
  intros [Hn H] Hk. split; auto.
  rewrite Forall_forall in *. intros kv Hkv.
  apply map_set_In in Hkv. destruct Hkv as [Hkv| ->]; auto.
Qed.

Lemma keys_from_one_delete m next k :
  keys_from_one m next -> keys_from_one (map_delete m k) next.
Proof.
  intros [Hn H]. split; auto.
  rewrite Forall_forall in *. intros kv Hkv. apply map_delete_In in Hkv. apply H. tauto.
Qed.

Lemma keys_from_one_delete_each (id_of : V -> Z) m next xs :
  keys_from_one m next -> keys_from_one (delete_each id_of m xs) next.
Proof.
  unfold delete_each. revert m.
  induction xs as [|x xs IH]; simpl; intros m H; auto using keys_from_one_delete.
Qed.

Lemma keys_from_one_next m next next' :
  keys_from_one m next -> next <= next' -> keys_from_one m next'.
Proof. intros [Hn H] Hle. split; auto. lia. Qed.

Lemma keys_from_one_get m next k v : keys_from_one m next -> map_get m k = Some v -> 1 <= k.
Proof.
  intros [_ H] Hg. apply map_get_In in Hg. rewrite Forall_forall in H.
  exact (H _ Hg).
Qed.

End JsMapLookup.

Lemma table_ok_fresh {V : Type} (id_of : V -> Z) (m : JsMap V) (next : Z) :
  table_ok id_of m next -> ~ In next (map_keys m).
Proof. intros Hok Hin. pose proof (table_ok_below _ _ _ _ Hok Hin). lia. Qed.

(** An entity of the map is what a lookup of its own [id] returns. *)
Lemma table_ok_lookup {V : Type} (id_of : V -> Z) (m : JsMap V) (next : Z) (v : V) :
  table_ok id_of m next -> In v (map_values m) -> map_get m (id_of v) = Some v.
Proof.
  intros Hok Hin. unfold map_values in Hin. apply in_map_iff in Hin.
  destruct Hin as [kv [<- Hkv]].
  destruct (map_get m (id_of (snd kv))) as [v'|] eqn:Hg.
  - apply map_get_In in Hg.
    assert (E : (id_of (snd kv), v') = kv).
    { eapply table_ok_functional; eauto. simpl. exact (table_ok_id _ _ _ _ Hok Hkv). }
    rewrite <- E. reflexivity.
  - exfalso. apply map_get_None in Hg. apply Hg. unfold map_keys. apply in_map_iff.
    exists kv. split; auto. symmetry. exact (table_ok_id _ _ _ _ Hok Hkv).
Qed.

Lemma store_from_one_exec (s : MemStorage) (op : Op) :
  store_from_one s -> store_from_one (fst (exec s op)).
Proof.
  intros (Hu & Hp & Hc & Hl & Hf).
  destruct op; simpl.
  - split_store. apply keys_from_one_set; [|apply Hu].
    apply keys_from_one_next with (next := currentUserId s); [exact Hu | lia].
  - unfold updateUser, getUser. destruct (map_get (users s) id) as [user|] eqn:Hg.
    + split_store.
      apply keys_from_one_set; [exact Hu | exact (keys_from_one_get _ _ _ _ Hu Hg)].
    + split_store.
  - split_store. apply keys_from_one_set; [|apply Hp].
    apply keys_from_one_next with (next := currentPostId s); [exact Hp | lia].
  - unfold updatePost. destruct (map_get (posts s) id) as [post|] eqn:Hg.
    + split_store.
      apply keys_from_one_set; [exact Hp | exact (keys_from_one_get _ _ _ _ Hp Hg)].
    + split_store.
  - split_store.
    + now apply keys_from_one_delete.
    + now apply keys_from_one_delete_each.
    + now apply keys_from_one_delete_each.
  - split_store. apply keys_from_one_set; [|apply Hc].
    apply keys_from_one_next with (next := currentCommentId s); [exact Hc | lia].
  - split_store. now apply keys_from_one_delete.
  - split_store. apply keys_from_one_set; [|apply Hl].
    apply keys_from_one_next with (next := currentLikeId s); [exact Hl | lia].
  - unfold deleteLike. destruct (getLike s postId userId).
    + split_store. now apply keys_from_one_delete.
    + split_store.
  - split_store. apply keys_from_one_set; [|apply Hf].
    apply keys_from_one_next with (next := currentFollowId s); [exact Hf | lia].
  - unfold deleteFollow. destruct (getFollow s followerId followingId).
    + split_store. now apply keys_from_one_delete.
    + split_store.
Qed.

Lemma reachable_store_from_one (s : MemStorage) : reachable s -> store_from_one s.
Proof.
  induction 1; [|now apply store_from_one_exec].
  split_store; split; simpl; try lia; constructor.
Qed.

(** The bounds of one table, as a lookup sees them. *)
Lemma table_lookup_bounds {V : Type} (id_of : V -> Z) (m : JsMap V) (next k : Z) (v : V) :
  table_ok id_of m next -> keys_from_one m next -> map_get m k = Some v ->
  id_of v = k /\ 1 <= k < next.
Proof.
  intros Hok Hone Hg. split; [exact (table_ok_get _ _ _ _ _ Hok Hg)|]. split.
  - exact (keys_from_one_get _ _ _ _ Hone Hg).
  - apply (table_ok_below _ _ _ _ Hok). exact (map_get_key_In _ _ _ Hg).
Qed.

(** X4. In every store a process can reach, the entity that a map holds
    under a key carries that key as its [id], and the key lies between 1 and
    the counter of its kind, the counter excluded: no entity has the identity
    0, and the next create cannot overwrite an entry. *)
Theorem stored_entities_carry_their_key (s : MemStorage) :
  reachable s ->
  (forall k u, map_get (users s) k = Some u -> user_id u = k /\ 1 <= k < currentUserId s)
  /\ (forall k p, map_get (posts s) k = Some p -> post_id p = k /\ 1 <= k < currentPostId s)
  /\ (forall k c, map_get (comments s) k = Some c ->
                  comment_id c = k /\ 1 <= k < currentCommentId s)
  /\ (forall k l, map_get (likes s) k = Some l -> like_id l = k /\ 1 <= k < currentLikeId s)
  /\ (forall k f, map_get (follows s) k = Some f ->
                  follow_id f = k /\ 1 <= k < currentFollowId s).
Proof.
  intros Hr.
  destruct (reachable_store_ok s Hr) as (Hu & Hp & Hc & Hl & Hf).
  destruct (reachable_store_from_one s Hr) as (Ju & Jp & Jc & Jl & Jf).
  split; [|split; [|split; [|split]]]; intros k v Hg;
    eapply table_lookup_bounds; eassumption.
Qed.

Lemma stored_entities_carry_their_key_witness :
  (forall k u, map_get (users store_with_follow) k = Some u ->
               user_id u = k /\ 1 <= k < 4)
  /\ map (fun u => user_id u) (map_values (users store_with_follow)) = [1; 2; 3].
Proof.
  split; [|reflexivity].
  destruct (stored_entities_carry_their_key store_with_follow (reachable_run _)) as (H & _).
  exact H.
Defined.

(** ** Users *)

Lemma getRandomAvatar_default (rnd : nat) :
  In (getRandomAvatar rnd) defaultAvatars /\ getRandomAvatar rnd <> EmptyString.
Proof.
  unfold getRandomAvatar.
  pose proof (Nat.mod_upper_bound rnd 6 ltac:(discriminate)) as Hlt.
  destruct (Nat.modulo rnd 6) as [|[|[|[|[|[|n]]]]]]; simpl;
    try (split; [tauto | discriminate]).
  exfalso. do 6 apply Nat.succ_lt_mono in Hlt. inversion Hlt.
Qed.

(** X5. On a reachable store [createUser] returns a user under an identity
    that no user had, and afterwards [getUser] of that identity returns this
    user while every other lookup is as before.  The user always has a
    non-empty avatar (the one supplied, or else one of the six defaults) and
    never an empty biography (an empty one is stored as null). *)
Theorem createUser_then_getUser (s : MemStorage) (insertUser : InsertUser) (now : Z) (rnd : nat) :
  reachable s ->
  getUser s (user_id (fst (createUser s insertUser now rnd))) = None
  /\ getUser (snd (createUser s insertUser now rnd))
             (user_id (fst (createUser s insertUser now rnd)))
     = Some (fst (createUser s insertUser now rnd))
  /\ (forall k, k <> user_id (fst (createUser s insertUser now rnd)) ->
                getUser (snd (createUser s insertUser now rnd)) k = getUser s k)
  /\ (exists a, user_avatarUrl (fst (createUser s insertUser now rnd)) = Some a
                /\ a <> EmptyString
                /\ (iu_avatarUrl insertUser = Some a \/ In a defaultAvatars))
  /\ user_bio (fst (createUser s insertUser now rnd)) <> Some EmptyString
  /\ user_username (fst (createUser s insertUser now rnd)) = iu_username insertUser
  /\ user_createdAt (fst (createUser s insertUser now rnd)) = now.
Proof.
  intros Hr. destruct (reachable_store_ok s Hr) as (Hu & _).
  simpl. unfold getUser. simpl.
  split; [apply map_get_None; exact (table_ok_fresh _ _ _ Hu)|].
  split; [apply map_get_set_same|].
  split; [intros k Hk; now apply map_get_set_other|].
  split; [|split; [|split; reflexivity]].
  - destruct (getRandomAvatar_default rnd) as [Hin Hne].
    destruct (iu_avatarUrl insertUser) as [[|c a]|]; simpl.
    + exists (getRandomAvatar rnd). auto.
    + exists (String c a). split; [reflexivity|]. split; [discriminate|]. now left.
    + exists (getRandomAvatar rnd). auto.
  - destruct (iu_bio insertUser) as [[|c b]|]; simpl; discriminate.
Qed.

Lemma createUser_then_getUser_witness :
  getUser store_with_follow 4 = None
  /\ getUser (snd (createUser store_with_follow
                              (mkInsertUser "dave" "pw" "Dave" (Some EmptyString) None) 200 7)) 4
     = Some (mkUser 4 "dave" "pw" "Dave" None
                    (Some "https://randomuser.me/api/portraits/men/75.jpg"%string) 200).
Proof.
  destruct (createUser_then_getUser store_with_follow
              (mkInsertUser "dave" "pw" "Dave" (Some EmptyString) None) 200 7
              (reachable_run _)) as (H1 & H2 & _).
  split; [exact H1 | exact H2].
Defined.



Lemma find_app {A : Type} (p : A -> bool) (l1 l2 : list A) :
  find p (l1 ++ l2) = match find p l1 with Some x => Some x | None => find p l2 end.
Proof.
  induction l1 as [|x l1 IH]; simpl; [reflexivity|]. destruct (p x); auto.
Qed.

(** X8. [createUser] does not look the handle up.  A user that
    [getUserByUsername] finds is still the one found after any [createUser],
    also one with the same handle; and when the handle of the new user was
    not found before, it finds the new user afterwards. *)
Theorem createUser_and_getUserByUsername
  (s : MemStorage) (insertUser : InsertUser) (now : Z) (rnd : nat) (username : string) :
  reachable s ->
  (forall u, getUserByUsername s username = Some u ->
             getUserByUsername (snd (createUser s insertUser now rnd)) username = Some u)
  /\ (getUserByUsername s (iu_username insertUser) = None ->
      getUserByUsername (snd (createUser s insertUser now rnd)) (iu_username insertUser)
      = Some (fst (createUser s insertUser now rnd))).
Proof.
  intros Hr. destruct (reachable_store_ok s Hr) as (Hu & _).
  unfold getUserByUsername. simpl.
  rewrite (map_values_set_fresh _ _ _ (table_ok_fresh _ _ _ Hu)), !find_app.
  split.
  - intros u E. now rewrite E.
  - intros E. rewrite E. simpl. now rewrite String.eqb_refl.
Qed.

(** User 1 is alice; a second "ALICE" is stored under identity 4 and is not
    the one a lookup of the handle returns. *)
Lemma createUser_and_getUserByUsername_witness :
  option_map user_id
    (getUserByUsername
       (snd (createUser store_with_follow (mkInsertUser "ALICE" "x" "Other" None None) 200 0))
       "alice")
  = Some 1
  /\ option_map user_id
       (getUserByUsername
          (snd (createUser store_with_follow (mkInsertUser "dave" "x" "Dave" None None) 200 0))
          "dave")
     = Some 4.
Proof.
  split.
  - destruct (createUser_and_getUserByUsername store_with_follow
                (mkInsertUser "ALICE" "x" "Other" None None) 200 0 "alice" (reachable_run _))
      as [H _].
    exact (f_equal (option_map user_id)
             (H (mkUser 1 "alice" "pw" "Alice" None
                        (Some "https://randomuser.me/api/portraits/women/44.jpg"%string) 100)
                eq_refl)).
  - destruct (createUser_and_getUserByUsername store_with_follow
                (mkInsertUser "dave" "x" "Dave" None None) 200 0 "dave" (reachable_run _))
      as [_ H].
    exact (f_equal (option_map user_id) (H eq_refl)).
Defined.

(** ** Posts *)

(** X9. On a reachable store [createPost] returns a post under an identity
    that no post had, with the author and content of the payload and the time
    of the call.  Afterwards [getPost] of that identity returns this post,
    without [isLiked] and with the author that [getUser] finds, and
    [getPost] of every other identity is as before. *)
Theorem createPost_then_getPost (s : MemStorage) (insertPost : InsertPost) (now : Z) :
  reachable s ->
  getPost s (post_id (fst (createPost s insertPost now))) = None
  /\ fst (createPost s insertPost now)
     = mkPost (currentPostId s) (ip_userId insertPost) (ip_content insertPost)
              (ip_imageUrl insertPost) now
  /\ (exists e,
        getPost (snd (createPost s insertPost now)) (post_id (fst (createPost s insertPost now)))
        = Some e
        /\ pw_post e = fst (createPost s insertPost now)
        /\ pw_user e = getUser s (ip_userId insertPost)
        /\ pw_isLiked e = None)
  /\ (forall k, k <> post_id (fst (createPost s insertPost now)) ->
                getPost (snd (createPost s insertPost now)) k = getPost s k).
Proof.
  intros Hr. destruct (reachable_store_ok s Hr) as (_ & Hp & _).
  unfold getPost. simpl.
  split.
  - assert (E : map_get (posts s) (currentPostId s) = None)
      by (apply map_get_None; exact (table_ok_fresh _ _ _ Hp)).
    now rewrite E.
  - split; [reflexivity|]. split.
    + rewrite map_get_set_same. simpl. eexists. split; [reflexivity|].
      split; [reflexivity|]. split; reflexivity.
    + intros k Hk. rewrite (map_get_set_other _ _ _ _ Hk).
      destruct (map_get (posts s) k) as [p|]; [|reflexivity].
      reflexivity.
Qed.

Lemma createPost_then_getPost_witness :
  getPost store_with_follow 2 = None
  /\ exists e,
       getPost (snd (createPost store_with_follow (mkInsertPost 3 "new" None) 200)) 2 = Some e
       /\ pw_post e = mkPost 2 3 "new" None 200
       /\ option_map user_username (pw_user e) = Some "carol"%string
       /\ pw_isLiked e = None.
Proof.
  destruct (createPost_then_getPost store_with_follow (mkInsertPost 3 "new" None) 200
              (reachable_run _)) as (H1 & _ & (e & E & Hp & Hu & Hl) & _).
  split; [exact H1|].
  exists e. split; [exact E|]. split; [exact Hp|]. split; [|exact Hl].
  rewrite Hu. reflexivity.
Defined.

(** The sort reads the creation time of a post only. *)
Lemma sort_insert_same_times (x x' : Post) (l l' : list Post) :
  post_createdAt x = post_createdAt x' ->
  Forall2 (fun a b => post_id a = post_id b /\ post_createdAt a = post_createdAt b) l l' ->
  post_id x = post_id x' ->
  Forall2 (fun a b => post_id a = post_id b /\ post_createdAt a = post_createdAt b)
          (sort_insert newest_first x l) (sort_insert newest_first x' l').
Proof.
  intros Ht H Hid. induction H as [|y y' l l' [Hy1 Hy2] H IH]; simpl.
  - constructor; auto.
  - unfold newest_first at 1 3. rewrite Ht, Hy2.
    destruct (post_createdAt y' - post_createdAt x' <=? 0).
    + constructor; auto.
    + constructor; auto.
Qed.

Lemma sort_same_times (l l' : list Post) :
  Forall2 (fun a b => post_id a = post_id b /\ post_createdAt a = post_createdAt b) l l' ->
  Forall2 (fun a b => post_id a = post_id b /\ post_createdAt a = post_createdAt b)
          (sort newest_first l) (sort newest_first l').
Proof.
  induction 1 as [|x x' l l' [H1 H2] H IH]; simpl; [constructor|].
  now apply sort_insert_same_times.
Qed.

Lemma Forall2_ids (l l' : list Post) :
  Forall2 (fun a b => post_id a = post_id b /\ post_createdAt a = post_createdAt b) l l' ->
  map post_id l = map post_id l'.
Proof. induction 1 as [|x x' l l' [H1 H2] H IH]; simpl; congruence. Qed.

Lemma map_set_same_times (m : JsMap Post) (k : Z) (p p' : Post) :
  map_get m k = Some p ->
  post_id p' = post_id p -> post_createdAt p' = post_createdAt p ->
  Forall2 (fun a b => post_id a = post_id b /\ post_createdAt a = post_createdAt b)
          (map_values (map_set m k p')) (map_values m).
Proof.
  intros Hg Hid Ht. induction m as [|[k0 p0] m IH]; simpl in *; [discriminate|].
  destruct (k0 =? k).
  - injection Hg as ->. simpl. constructor; auto.
    clear. induction m as [|[k1 p1] m IH]; simpl; constructor; auto.
  - simpl. constructor; auto.
Qed.

(** X10. [updatePost] keeps the identity and the creation time of the post
    and its place in the posts map, so the order of the posts in the discover
    feed is the same after an update as before it (for an identity that no
    post has, [updatePost] returns nothing and changes nothing). *)
Theorem updatePost_keeps_feed_order (s : MemStorage) (id : Z) (postData : PartialInsertPost) :
  (map_get (posts s) id = None -> updatePost s id postData = (None, s))
  /\ (forall post, map_get (posts s) id = Some post ->
        exists updated,
          fst (updatePost s id postData) = Some updated
          /\ post_id updated = post_id post
          /\ post_createdAt updated = post_createdAt post
          /\ map_get (posts (snd (updatePost s id postData))) id = Some updated)
  /\ map (fun e => post_id (pw_post e)) (getDiscoverFeed (snd (updatePost s id postData)))
     = map (fun e => post_id (pw_post e)) (getDiscoverFeed s).
Proof.
  unfold updatePost.
  destruct (map_get (posts s) id) as [post|] eqn:Hg.
  - split; [discriminate|]. split.
    + intros p E. injection E as <-. exists (spread_post post postData). simpl.
      repeat split. apply map_get_set_same.
    + unfold getDiscoverFeed. simpl.
      rewrite <- !map_map with (f := pw_post) (g := post_id), !enrichPosts_posts.
      apply Forall2_ids, sort_same_times.
      now apply (map_set_same_times _ _ post).
  - split; [reflexivity|]. split; [discriminate|]. reflexivity.
Qed.

Lemma updatePost_keeps_feed_order_witness :
  map (fun e => post_id (pw_post e))
      (getDiscoverFeed
         (snd (updatePost store_with_ties 3 (mkPartialInsertPost None (Some "edited"%string) None))))
  = [2; 1; 3]
  /\ option_map post_content
       (map_get (posts (snd (updatePost store_with_ties 3
                               (mkPartialInsertPost None (Some "edited"%string) None)))) 3)
     = Some "edited"%string.
Proof.
  destruct (updatePost_keeps_feed_order store_with_ties 3
              (mkPartialInsertPost None (Some "edited"%string) None)) as (_ & _ & H).
  split; [rewrite H; reflexivity | reflexivity].
Defined.

(** X11. The discover feed holds the enriched posts of [getPosts], each one
    once, in another order: sorting loses no post and repeats none. *)
Theorem getDiscoverFeed_permutes_getPosts (s : MemStorage) :
  Permutation (getDiscoverFeed s) (getPosts s).
Proof.
  unfold getDiscoverFeed, getPosts, enrichPosts.
  apply Permutation_map, sort_perm.
Qed.

Lemma filter_filter_other {A : Type} (f : A -> Z) (k id : Z) (l : list A) :
  k <> id ->
  filter (fun x => f x =? k) (filter (fun x => negb (f x =? id)) l)
  = filter (fun x => f x =? k) l.
Proof.
  intros Hne. induction l as [|x l IH]; simpl; [reflexivity|].
  destruct (Z.eqb_spec (f x) id) as [E|E]; simpl.
  - destruct (Z.eqb_spec (f x) k); [congruence|exact IH].
  - destruct (f x =? k); now rewrite IH.
Qed.

(** X12. On a reachable store [deletePost(id)] returns whether the post
    existed and touches nothing but that post and its dependents: users and
    follows are as before, and for every other identity [getPost],
    [getLikesByPost] and [getCommentsByPost] return what they returned. *)
Theorem deletePost_frame (s : MemStorage) (id : Z) :
  reachable s ->
  fst (deletePost s id) = bangbang (map_get (posts s) id)
  /\ users (snd (deletePost s id)) = users s
  /\ follows (snd (deletePost s id)) = follows s
  /\ (forall k, k <> id ->
        getPost (snd (deletePost s id)) k = getPost s k
        /\ getLikesByPost (snd (deletePost s id)) k = getLikesByPost s k
        /\ getCommentsByPost (snd (deletePost s id)) k = getCommentsByPost s k).
Proof.
  intros Hr. pose proof (reachable_store_ok s Hr) as Hok.
  destruct (deletePost_tables s id Hok) as [Hc Hl].
  destruct Hok as (_ & Hp & _).
  split; [simpl; apply map_has_get|]. split; [reflexivity|]. split; [reflexivity|].
  intros k Hk.
  assert (HL : forall j, j <> id ->
                         getLikesByPost (snd (deletePost s id)) j = getLikesByPost s j).
  { intros j Hj. unfold getLikesByPost. rewrite Hl.
    now apply (filter_filter_other like_postId). }
  assert (HC : forall j, j <> id ->
                         getCommentsByPost (snd (deletePost s id)) j = getCommentsByPost s j).
  { intros j Hj. unfold getCommentsByPost. rewrite Hc.
    now rewrite (filter_filter_other comment_postId). }
  split; [|split; auto].
  unfold getPost.
  change (posts (snd (deletePost s id))) with (map_delete (posts s) id).
  rewrite (map_get_delete_other _ _ _ Hk).
  destruct (map_get (posts s) k) as [p|] eqn:Hg; [|reflexivity].
  assert (Hid : post_id p <> id) by (rewrite (table_ok_get _ _ _ _ _ Hp Hg); exact Hk).
  unfold enrichPosts, map, hd_error, enrichPost.
  now rewrite (HL _ Hid), (HC _ Hid).
Qed.

Lemma deletePost_frame_witness :
  fst (deletePost store_with_two_posts 1) = true
  /\ option_map pw_likeCount (getPost (snd (deletePost store_with_two_posts 1)) 2) = Some 1
  /\ getPost (snd (deletePost store_with_two_posts 1)) 2 = getPost store_with_two_posts 2.
Proof.
  destruct (deletePost_frame store_with_two_posts 1 (reachable_run _)) as (H1 & _ & _ & H).
  split; [exact H1|]. split; [reflexivity|].
  apply (H 2). discriminate.
Defined.

(** ** Comments, likes and follows *)

Section TableRemoval.
Context {V : Type} (id_of : V -> Z).
Implicit Types (m : JsMap V) (k next : Z) (v : V).

Lemma table_values_delete m next k :
  table_ok id_of m next ->
  map_values (map_delete m k) = filter (fun v => negb (id_of v =? k)) (map_values m).
Proof.
  intros Hok. unfold map_delete.
  rewrite <- (values_filter (fun v => negb (id_of v =? k))).
  f_equal. apply filter_ext_in. intros kv Hkv.
  now rewrite (table_ok_id _ _ _ _ Hok Hkv).
Qed.

Lemma table_find_by_id m next k :
  table_ok id_of m next -> find (fun v => id_of v =? k) (map_values m) = map_get m k.
Proof.
  intros [_ H]. induction m as [|[k0 v0] m IH]; simpl; [reflexivity|].
  inversion H as [|? ? [Hid _] H']; subst. simpl in Hid. rewrite Hid.
  destruct (k0 =? k); auto.
Qed.

Lemma table_values_NoDup m next : table_ok id_of m next -> NoDup (map id_of (map_values m)).
Proof.
  intros Hok. apply StronglySorted_lt_NoDup. exact (table_ok_values_sorted _ _ _ Hok).
Qed.

(** Removing the entry that was just created gives the map back. *)
Lemma map_delete_set_fresh m k v : ~ In k (map_keys m) -> map_delete (map_set m k v) k = m.
Proof.
  intros H. rewrite (map_set_fresh _ _ _ H). unfold map_delete.
  rewrite filter_app. simpl. rewrite Z.eqb_refl. simpl. rewrite app_nil_r.
  induction m as [|[k0 v0] m IH]; simpl; [reflexivity|].
  destruct (Z.eqb_spec k0 k) as [->|Hne]; simpl.
  - exfalso. apply H. now left.
  - f_equal. apply IH. intros Hin. apply H. now right.
Qed.

End TableRemoval.

Lemma NoDup_map_In_eq {A B : Type} (f : A -> B) (l : list A) (x y : A) :
  NoDup (map f l) -> In x l -> In y l -> f x = f y -> x = y.
Proof.
  induction l as [|a l IH]; simpl; [tauto|].
  intros Hnd. inversion Hnd as [|? ? Hnot Hnd']; subst.
  intros [->|Hx] [->|Hy] E; auto.
  - exfalso. apply Hnot. rewrite E. now apply in_map.
  - exfalso. apply Hnot. rewrite <- E. now apply in_map.
Qed.

Lemma length_filter_remove {A : Type} (f : A -> Z) (l : list A) (x : A) :
  NoDup (map f l) -> In x l ->
  S (List.length (filter (fun y => negb (f y =? f x)) l)) = List.length l.
Proof.
  induction l as [|a l IH]; simpl; [tauto|].
  intros Hnd. inversion Hnd as [|? ? Hnot Hnd']; subst.
  intros [->|Hx].
  - rewrite Z.eqb_refl. simpl. f_equal.
    rewrite forallb_filter_id; [reflexivity|].
    apply forallb_forall. intros y Hy. apply negb_true_iff. apply Z.eqb_neq.
    intros E. apply Hnot. rewrite <- E. now apply in_map.
  - destruct (Z.eqb_spec (f a) (f x)) as [E|E]; simpl.
    + exfalso. apply Hnot. rewrite E. now apply in_map.
    + f_equal. now apply IH.
Qed.

(** X13. On a reachable store [createComment] adds the new comment, with the
    author that [getUser] finds for it, at the end of [getCommentsByPost] of
    its post, and leaves the comments of every other post as they were.  It
    looks up neither the post nor the author. *)
Theorem createComment_appends (s : MemStorage) (insertComment : InsertComment) (now P : Z) :
  reachable s ->
  fst (createComment s insertComment now)
  = mkComment (currentCommentId s) (ic_postId insertComment) (ic_userId insertComment)
              (ic_content insertComment) now
  /\ getCommentsByPost (snd (createComment s insertComment now)) P
     = getCommentsByPost s P
       ++ (if ic_postId insertComment =? P
           then [mkCommentWithUser (fst (createComment s insertComment now))
                                   (getUser s (ic_userId insertComment))]
           else []).
Proof.
  intros Hr. destruct (reachable_store_ok s Hr) as (_ & _ & Hc & _).
  split; [reflexivity|].
  unfold getCommentsByPost. simpl.
  rewrite (map_values_set_fresh _ _ _ (table_ok_fresh _ _ _ Hc)), filter_app, map_app.
  simpl. destruct (ic_postId insertComment =? P); reflexivity.
Qed.

Lemma createComment_appends_witness :
  map (fun cw => comment_content (cw_comment cw))
      (getCommentsByPost
         (snd (createComment store_with_two_posts (mkInsertComment 2 1 "again") 200)) 2)
  = ["nice"; "again"]%string
  /\ getCommentsByPost
       (snd (createComment store_with_two_posts (mkInsertComment 2 1 "again") 200)) 1
     = getCommentsByPost store_with_two_posts 1 ++ [].
Proof.
  split; [reflexivity|].
  destruct (createComment_appends store_with_two_posts (mkInsertComment 2 1 "again") 200 1
              (reachable_run _)) as [_ H].
  exact H.
Defined.

(** X14. On a reachable store [deleteComment(id)] returns whether a comment
    with that identity existed; afterwards no comment has the identity, and
    [getCommentsByPost] of every post returns what it returned without that
    comment. *)
Theorem deleteComment_removes_one (s : MemStorage) (id : Z) :
  reachable s ->
  fst (deleteComment s id) = bangbang (map_get (comments s) id)
  /\ map_get (comments (snd (deleteComment s id))) id = None
  /\ (forall k, k <> id ->
                map_get (comments (snd (deleteComment s id))) k = map_get (comments s) k)
  /\ (forall P,
        getCommentsByPost (snd (deleteComment s id)) P
        = filter (fun cw => negb (comment_id (cw_comment cw) =? id))
                 (getCommentsByPost s P)).
Proof.
  intros Hr. destruct (reachable_store_ok s Hr) as (_ & _ & Hc & _).
  split; [simpl; apply map_has_get|].
  split; [simpl; apply map_get_delete_same|].
  split; [intros k Hk; simpl; now apply map_get_delete_other|].
  intros P. unfold getCommentsByPost. simpl.
  rewrite (table_values_delete comment_id _ _ id Hc), filter_map_swap. simpl.
  f_equal.
  induction (map_values (comments s)) as [|c l IH]; simpl; [reflexivity|].
  destruct (comment_id c =? id) eqn:E1, (comment_postId c =? P) eqn:E2; simpl;
    rewrite ?E1, ?E2; simpl; now rewrite ?IH.
Qed.

Lemma deleteComment_removes_one_witness :
  fst (deleteComment store_with_two_posts 1) = true
  /\ fst (deleteComment store_with_two_posts 5) = false
  /\ getCommentsByPost (snd (deleteComment store_with_two_posts 1)) 2 = [].
Proof.
  destruct (deleteComment_removes_one store_with_two_posts 1 (reachable_run _))
    as (H1 & _ & _ & H4).
  destruct (deleteComment_removes_one store_with_two_posts 5 (reachable_run _))
    as (H5 & _).
  split; [exact H1|]. split; [exact H5|].
  rewrite H4. reflexivity.
Defined.

Lemma getLike_None (s : MemStorage) (P V : Z) : ~ like_exists s P V -> getLike s P V = None.
Proof.
  intros H. destruct (getLike s P V) as [l|] eqn:E; auto.
  exfalso. apply H. apply getLike_exists. now rewrite E.
Qed.

Lemma getLike_Some_row (s : MemStorage) (P V : Z) (l : Like) :
  getLike s P V = Some l ->
  In l (map_values (likes s)) /\ like_postId l = P /\ like_userId l = V.
Proof.
  intros E. unfold getLike in E. apply find_some in E. destruct E as [Hin E].
  apply andb_true_iff in E. now rewrite !Z.eqb_eq in E.
Qed.

(** X15. On a reachable store, liking a post that the user has not liked
    makes [getLike] find the new row and raises the like count of that post
    by one, the counts of other posts staying as they are; [deleteLike] of the
    pair then returns [true] and gives the likes map back as it was, while the
    like counter keeps its advance. *)
Theorem createLike_then_deleteLike (s : MemStorage) (P V now : Z) :
  reachable s ->
  ~ like_exists s P V ->
  getLike (snd (createLike s (mkInsertLike P V) now)) P V
  = Some (mkLike (currentLikeId s) P V now)
  /\ array_length (getLikesByPost (snd (createLike s (mkInsertLike P V) now)) P)
     = array_length (getLikesByPost s P) + 1
  /\ (forall Q, Q <> P ->
                getLikesByPost (snd (createLike s (mkInsertLike P V) now)) Q
                = getLikesByPost s Q)
  /\ fst (deleteLike (snd (createLike s (mkInsertLike P V) now)) P V) = true
  /\ likes (snd (deleteLike (snd (createLike s (mkInsertLike P V) now)) P V)) = likes s
  /\ currentLikeId (snd (deleteLike (snd (createLike s (mkInsertLike P V) now)) P V))
     = currentLikeId s + 1.
Proof.
  intros Hr Hnot. destruct (reachable_store_ok s Hr) as (_ & _ & _ & Hl & _).
  pose proof (table_ok_fresh _ _ _ Hl) as Hfresh.
  assert (Hget : getLike (snd (createLike s (mkInsertLike P V) now)) P V
                 = Some (mkLike (currentLikeId s) P V now)).
  { unfold getLike. simpl. rewrite (map_values_set_fresh _ _ _ Hfresh), find_app.
    fold (getLike s P V). rewrite (getLike_None _ _ _ Hnot). simpl.
    now rewrite !Z.eqb_refl. }
  split; [exact Hget|]. split; [|split].
  - unfold getLikesByPost, array_length. simpl.
    rewrite (map_values_set_fresh _ _ _ Hfresh), filter_app, length_app. simpl.
    rewrite Z.eqb_refl. simpl. lia.
  - intros Q HQ. unfold getLikesByPost. simpl.
    rewrite (map_values_set_fresh _ _ _ Hfresh), filter_app. simpl.
    destruct (Z.eqb_spec P Q); [congruence|]. apply app_nil_r.
  - unfold deleteLike. rewrite Hget. simpl.
    rewrite map_has_get, map_get_set_same, (map_delete_set_fresh _ _ _ Hfresh).
    repeat split.
Qed.

Lemma createLike_then_deleteLike_witness :
  array_length (getLikesByPost (snd (createLike store_with_two_posts (mkInsertLike 2 9) 200)) 2)
  = 2
  /\ likes (snd (deleteLike (snd (createLike store_with_two_posts (mkInsertLike 2 9) 200)) 2 9))
     = likes store_with_two_posts.
Proof.
  destruct (createLike_then_deleteLike store_with_two_posts 2 9 200 (reachable_run _))
    as (_ & H2 & _ & _ & H5 & _).
  - intros Hex. apply getLike_exists in Hex. discriminate.
  - split; [exact H2 | exact H5].
Defined.

Lemma filter_filter_implied {A : Type} (g h : A -> bool) (l : list A) :
  (forall y, In y l -> g y = true -> h y = true) ->
  filter g (filter h l) = filter g l.
Proof.
  induction l as [|a l IH]; simpl; intros H; [reflexivity|].
  destruct (g a) eqn:Ega.
  - rewrite (H a (or_introl eq_refl) Ega). simpl. rewrite Ega. f_equal. auto.
  - destruct (h a); simpl; rewrite ?Ega; auto.
Qed.

Lemma filter_remove_other {A : Type} (f : A -> Z) (g : A -> bool) (l : list A) (x : A) :
  NoDup (map f l) -> In x l -> g x = false ->
  filter g (filter (fun y => negb (f y =? f x)) l) = filter g l.
Proof.
  intros Hnd Hx Hg. apply filter_filter_implied. intros y Hy Hgy.
  apply negb_true_iff, Z.eqb_neq. intros E.
  assert (y = x) by (eapply NoDup_map_In_eq; eauto). congruence.
Qed.

Lemma filter_comm {A : Type} (p q : A -> bool) (l : list A) :
  filter p (filter q l) = filter q (filter p l).
Proof.
  induction l as [|a l IH]; simpl; [reflexivity|].
  destruct (p a) eqn:Ep, (q a) eqn:Eq; simpl; rewrite ?Ep, ?Eq, ?IH; reflexivity.
Qed.

Lemma NoDup_map_filter {A B : Type} (f : A -> B) (g : A -> bool) (l : list A) :
  NoDup (map f l) -> NoDup (map f (filter g l)).
Proof.
  induction l as [|a l IH]; simpl; intros Hnd; [constructor|].
  inversion Hnd as [|? ? Hnot Hnd']; subst.
  destruct (g a); simpl; auto.
  constructor; auto.
  intros Hin. apply Hnot. apply in_map_iff in Hin. destruct Hin as [y [E Hy]].
  apply filter_In in Hy. apply in_map_iff. exists y. tauto.
Qed.

(** X16. On a reachable store [deleteLike(P, V)] returns whether a Like row
    for the pair existed.  Without one the store is left as it was; with one,
    exactly one row goes: the like count of P drops by one and the likes of
    every other post are as before. *)
Theorem deleteLike_removes_one (s : MemStorage) (P V : Z) :
  reachable s ->
  fst (deleteLike s P V) = bangbang (getLike s P V)
  /\ (~ like_exists s P V -> deleteLike s P V = (false, s))
  /\ (like_exists s P V ->
      array_length (getLikesByPost (snd (deleteLike s P V)) P)
      = array_length (getLikesByPost s P) - 1
      /\ forall Q, Q <> P ->
                   getLikesByPost (snd (deleteLike s P V)) Q = getLikesByPost s Q).
Proof.
  intros Hr. destruct (reachable_store_ok s Hr) as (_ & _ & _ & Hl & _).
  pose proof (table_values_NoDup like_id _ _ Hl) as Hnd.
  unfold deleteLike.
  destruct (getLike s P V) as [l|] eqn:Hg.
  - destruct (getLike_Some_row _ _ _ _ Hg) as (Hin & HP & HV).
    split; [|split].
    + simpl. now rewrite map_has_get, (table_ok_lookup like_id _ _ _ Hl Hin).
    + intros Hnot. exfalso. apply Hnot. now exists l.
    + intros _. unfold getLikesByPost. simpl.
      rewrite (table_values_delete like_id _ _ (like_id l) Hl). split.
      * rewrite filter_comm. unfold array_length.
        rewrite <- (length_filter_remove like_id
                      (filter (fun x => like_postId x =? P) (map_values (likes s))) l).
        -- lia.
        -- now apply NoDup_map_filter.
        -- apply filter_In. split; auto. now apply Z.eqb_eq.
      * intros Q HQ. apply (filter_remove_other like_id); auto.
        apply Z.eqb_neq. congruence.
  - split; [reflexivity|]. split; [reflexivity|].
    intros Hex. apply getLike_exists in Hex. rewrite Hg in Hex. discriminate.
Qed.

Lemma deleteLike_removes_one_witness :
  fst (deleteLike store_with_two_posts 2 1) = true
  /\ array_length (getLikesByPost (snd (deleteLike store_with_two_posts 2 1)) 2) = 0
  /\ deleteLike store_with_two_posts 2 9 = (false, store_with_two_posts).
Proof.
  destruct (deleteLike_removes_one store_with_two_posts 2 1 (reachable_run _))
    as (H1 & _ & H3).
  destruct (deleteLike_removes_one store_with_two_posts 2 9 (reachable_run _))
    as (_ & H2 & _).
  split; [exact H1|]. split.
  - destruct H3 as [H3 _]; [apply getLike_exists; reflexivity | exact H3].
  - apply H2. intros Hex. apply getLike_exists in Hex. discriminate.
Defined.

(** [createLike] itself does not look for an existing row: a pair liked twice
    through it is still liked after one [deleteLike]. *)
Example deleteLike_leaves_second_row :
  bangbang
    (getLike
       (snd (deleteLike (snd (createLike store_with_two_posts (mkInsertLike 2 1) 200)) 2 1))
       2 1)
  = true.
Proof. reflexivity. Qed.

(** ** The like, follow and delete handlers *)

Lemma NoDup_snoc {A : Type} (l : list A) (x : A) :
  NoDup l -> ~ In x l -> NoDup (l ++ [x]).
Proof.
  intros Hnd Hx. apply NoDup_app; auto.
  - repeat constructor. intros [].
  - intros a Ha [<-|[]]. contradiction.
Qed.

Lemma getFollow_None (s : MemStorage) (a b : Z) : ~ follow_exists s a b -> getFollow s a b = None.
Proof.
  intros H. destruct (getFollow s a b) as [f|] eqn:E; auto.
  exfalso. apply H. apply getFollow_exists. now rewrite E.
Qed.

Lemma getFollow_Some_row (s : MemStorage) (a b : Z) (f : Follow) :
  getFollow s a b = Some f ->
  In f (map_values (follows s)) /\ follow_followerId f = a /\ follow_followingId f = b.
Proof.
  intros E. unfold getFollow in E. apply find_some in E. destruct E as [Hin E].
  apply andb_true_iff in E. now rewrite !Z.eqb_eq in E.
Qed.

Section MoreHandlerFacts.
Variable insertLikeSchema : InsertLike -> bool.
Variable insertFollowSchema : InsertFollow -> bool.

(** X17. The like and unlike handlers keep the likes free of repeated
    (post, user) pairs on a reachable store, and after the unlike handler has
    answered an authenticated request for post P the viewer has no Like row
    on P: unliking twice is the same as unliking once. *)
Theorem like_handlers_keep_pairs_unique (s : MemStorage) (req : Routes.Request) (now : Z) :
  reachable s ->
  likes_unique s ->
  likes_unique (snd (Routes.post_like insertLikeSchema s req now))
  /\ likes_unique (snd (Routes.delete_like s req))
  /\ (forall viewer P,
        Routes.req_user req = Some viewer -> Routes.req_params_id req = Some P ->
        ~ like_exists (snd (Routes.delete_like s req)) P viewer
        /\ Routes.delete_like (snd (Routes.delete_like s req)) req
           = Routes.delete_like s req).
Proof.
  intros Hr Hu. destruct (reachable_store_ok s Hr) as (_ & _ & _ & Hl & _).
  assert (Hdel : forall P V, likes_unique (snd (deleteLike s P V))
                             /\ ~ like_exists (snd (deleteLike s P V)) P V).
  { intros P V. unfold deleteLike. destruct (getLike s P V) as [l|] eqn:Hg.
    - destruct (getLike_Some_row _ _ _ _ Hg) as (Hin & HP & HV).
      unfold likes_unique, like_exists. simpl.
      rewrite (table_values_delete like_id _ _ (like_id l) Hl). split.
      + now apply NoDup_map_filter.
      + intros [l' (Hin' & HP' & HV')]. apply filter_In in Hin'.
        destruct Hin' as [Hin' Hne]. apply negb_true_iff, Z.eqb_neq in Hne.
        apply Hne. f_equal.
        apply (NoDup_map_In_eq (fun x => (like_postId x, like_userId x))
                               (map_values (likes s))); auto.
        simpl. congruence.
    - split; auto. intros Hex. apply getLike_exists in Hex. simpl in Hex.
      rewrite Hg in Hex. discriminate. }
  split; [|split].
  - unfold Routes.post_like.
    destruct (Routes.req_user req) as [viewer|]; auto.
    destruct (Routes.req_params_id req) as [P|]; auto.
    destruct (getLike s P viewer) as [l|] eqn:Hg; auto.
    destruct (insertLikeSchema _); auto.
    unfold likes_unique. simpl.
    rewrite (map_values_set_fresh _ _ _ (table_ok_fresh _ _ _ Hl)), map_app. simpl.
    apply NoDup_snoc; auto.
    intros Hin. apply in_map_iff in Hin. destruct Hin as [l [E Hin]].
    injection E as HP HV.
    assert (Hex : like_exists s P viewer) by now exists l.
    apply getLike_exists in Hex. rewrite Hg in Hex. discriminate.
  - unfold Routes.delete_like.
    destruct (Routes.req_user req) as [viewer|]; auto.
    destruct (Routes.req_params_id req) as [P|]; auto. simpl. apply Hdel.
  - intros viewer P Eu Ep. unfold Routes.delete_like. rewrite Eu, Ep. simpl.
    destruct (Hdel P viewer) as [_ Hnot]. split; [exact Hnot|].
    unfold deleteLike at 1. now rewrite (getLike_None _ _ _ Hnot).
Qed.

(** X18. The follow and unfollow handlers keep the follows free of repeated
    (follower, followed) pairs and of rows in which a user follows itself, on
    a reachable store. *)
Theorem follow_handlers_keep_pairs_unique (s : MemStorage) (req : Routes.Request) (now : Z) :
  reachable s ->
  follows_unique s ->
  no_self_follow s ->
  (follows_unique (snd (Routes.post_follow insertFollowSchema s req now))
   /\ no_self_follow (snd (Routes.post_follow insertFollowSchema s req now)))
  /\ (follows_unique (snd (Routes.delete_follow s req))
      /\ no_self_follow (snd (Routes.delete_follow s req))).
Proof.
  intros Hr Hu Hs. destruct (reachable_store_ok s Hr) as (_ & _ & _ & _ & Hf).
  split.
  - unfold Routes.post_follow.
    destruct (Routes.req_user req) as [viewer|]; auto.
    destruct (Routes.req_params_id req) as [b|]; auto.
    destruct (Z.eqb_spec b viewer) as [->|Hne]; auto.
    destruct (getFollow s viewer b) as [f|] eqn:Hg; auto.
    destruct (insertFollowSchema _); auto.
    unfold follows_unique, no_self_follow. simpl.
    rewrite (map_values_set_fresh _ _ _ (table_ok_fresh _ _ _ Hf)), map_app. simpl.
    split.
    + apply NoDup_snoc; auto.
      intros Hin. apply in_map_iff in Hin. destruct Hin as [f [E Hin]].
      injection E as Ha Hb.
      assert (Hex : follow_exists s viewer b) by now exists f.
      apply getFollow_exists in Hex. rewrite Hg in Hex. discriminate.
    + apply Forall_app. split; [exact Hs|].
      constructor; [simpl; congruence | constructor].
  - unfold Routes.delete_follow.
    destruct (Routes.req_user req) as [viewer|]; auto.
    destruct (Routes.req_params_id req) as [b|]; auto. simpl.
    unfold deleteFollow. destruct (getFollow s viewer b) as [f|]; auto.
    unfold follows_unique, no_self_follow. simpl.
    rewrite (table_values_delete follow_id _ _ (follow_id f) Hf). split.
    + now apply NoDup_map_filter.
    + unfold no_self_follow in Hs. rewrite Forall_forall in *.
      intros x Hx. apply filter_In in Hx. apply Hs. tauto.
Qed.

(** X19. On a reachable store, when the viewer does not follow another user
    and the insert schema accepts the payload, the follow handler answers 201
    and the followed user has one follower more; the unfollow handler then
    answers 204 and gives the follows map back as it was. *)
Theorem follow_then_unfollow (s : MemStorage) (viewer followingId now : Z) :
  reachable s ->
  followingId <> viewer ->
  ~ follow_exists s viewer followingId ->
  insertFollowSchema (mkInsertFollow viewer followingId) = true ->
  Routes.status
    (fst (Routes.post_follow insertFollowSchema s
            (Routes.mkRequest (Some viewer) (Some followingId)) now)) = 201
  /\ array_length
       (getFollowers
          (snd (Routes.post_follow insertFollowSchema s
                  (Routes.mkRequest (Some viewer) (Some followingId)) now))
          followingId)
     = array_length (getFollowers s followingId) + 1
  /\ Routes.status
       (fst (Routes.delete_follow
               (snd (Routes.post_follow insertFollowSchema s
                       (Routes.mkRequest (Some viewer) (Some followingId)) now))
               (Routes.mkRequest (Some viewer) (Some followingId)))) = 204
  /\ follows
       (snd (Routes.delete_follow
               (snd (Routes.post_follow insertFollowSchema s
                       (Routes.mkRequest (Some viewer) (Some followingId)) now))
               (Routes.mkRequest (Some viewer) (Some followingId))))
     = follows s.
Proof.
  intros Hr Hne Hnot Hvalid. destruct (reachable_store_ok s Hr) as (_ & _ & _ & _ & Hf).
  pose proof (table_ok_fresh _ _ _ Hf) as Hfresh.
  unfold Routes.post_follow, Routes.delete_follow. simpl.
  destruct (Z.eqb_spec followingId viewer); [contradiction|].
  rewrite (getFollow_None _ _ _ Hnot), Hvalid. simpl.
  split; [reflexivity|]. split; [|split; [reflexivity|]].
  - unfold getFollowers, array_length. simpl.
    rewrite (map_values_set_fresh _ _ _ Hfresh), filter_app, map_app, length_app.
    simpl. rewrite Z.eqb_refl. simpl. rewrite !length_map. lia.
  - unfold deleteFollow, getFollow. simpl.
    rewrite (map_values_set_fresh _ _ _ Hfresh), find_app.
    fold (getFollow s viewer followingId). rewrite (getFollow_None _ _ _ Hnot).
    simpl. rewrite !Z.eqb_refl. simpl.
    apply (map_delete_set_fresh _ _ _ Hfresh).
Qed.

End MoreHandlerFacts.

Lemma store_with_follow_pairs_unique :
  likes_unique store_with_follow /\ follows_unique store_with_follow
  /\ no_self_follow store_with_follow.
Proof.
  split; [|split].
  - repeat constructor. intros [].
  - repeat constructor. intros [].
  - repeat constructor. discriminate.
Qed.

(** User 1 likes post 1 in [store_with_follow]; user 2 does not yet. *)
Lemma like_handlers_keep_pairs_unique_witness :
  likes_unique
    (snd (Routes.post_like (fun _ => true) store_with_follow
                           (Routes.mkRequest (Some 2) (Some 1)) 200))
  /\ array_length
       (getLikesByPost
          (snd (Routes.post_like (fun _ => true) store_with_follow
                                 (Routes.mkRequest (Some 2) (Some 1)) 200)) 1) = 2
  /\ likes_unique (snd (Routes.delete_like store_with_follow
                                           (Routes.mkRequest (Some 1) (Some 1))))
  /\ getLikesByPost (snd (Routes.delete_like store_with_follow
                                             (Routes.mkRequest (Some 1) (Some 1)))) 1 = [].
Proof.
  destruct (like_handlers_keep_pairs_unique (fun _ => true) store_with_follow
              (Routes.mkRequest (Some 2) (Some 1)) 200 (reachable_run _)
              (proj1 store_with_follow_pairs_unique)) as (H1 & _).
  destruct (like_handlers_keep_pairs_unique (fun _ => true) store_with_follow
              (Routes.mkRequest (Some 1) (Some 1)) 200 (reachable_run _)
              (proj1 store_with_follow_pairs_unique)) as (_ & H2 & _).
  split; [exact H1|]. split; [reflexivity|]. split; [exact H2 | reflexivity].
Defined.

Lemma follow_handlers_keep_pairs_unique_witness :
  follows_unique
    (snd (Routes.post_follow (fun _ => true) store_with_follow
                             (Routes.mkRequest (Some 2) (Some 1)) 200))
  /\ map (fun f => (follow_followerId f, follow_followingId f))
         (map_values
            (follows (snd (Routes.post_follow (fun _ => true) store_with_follow
                                              (Routes.mkRequest (Some 2) (Some 1)) 200))))
     = [(1, 2); (2, 1)].
Proof.
  destruct (follow_handlers_keep_pairs_unique (fun _ => true) store_with_follow
              (Routes.mkRequest (Some 2) (Some 1)) 200 (reachable_run _)
              (proj1 (proj2 store_with_follow_pairs_unique))
              (proj2 (proj2 store_with_follow_pairs_unique))) as ((H1 & _) & _).
  split; [exact H1 | reflexivity].
Defined.

Lemma follow_then_unfollow_witness :
  array_length (getFollowers store_with_follow 3) = 0
  /\ array_length
       (getFollowers
          (snd (Routes.post_follow (fun _ => true) store_with_follow
                                   (Routes.mkRequest (Some 1) (Some 3)) 200)) 3) = 0 + 1
  /\ follows
       (snd (Routes.delete_follow
               (snd (Routes.post_follow (fun _ => true) store_with_follow
                                        (Routes.mkRequest (Some 1) (Some 3)) 200))
               (Routes.mkRequest (Some 1) (Some 3))))
     = follows store_with_follow.
Proof.
  split; [reflexivity|].
  destruct (follow_then_unfollow (fun _ => true) store_with_follow 1 3 200)
    as (_ & H2 & _ & H4).
  - apply reachable_run.
  - discriminate.
  - intros Hex. apply getFollow_exists in Hex. discriminate.
  - reflexivity.
  - split; [exact H2 | exact H4].
Defined.

Lemma deletePost_clears (s : MemStorage) (P : Z) :
  store_ok s ->
  getPost (snd (deletePost s P)) P = None
  /\ getLikesByPost (snd (deletePost s P)) P = []
  /\ getCommentsByPost (snd (deletePost s P)) P = [].
Proof.
  intros Hok. destruct (deletePost_tables s P Hok) as [Hc Hl].
  unfold getLikesByPost, getCommentsByPost, getPost. rewrite Hc, Hl.
  rewrite (filter_filter_negb (fun l => like_postId l =? P)).
  rewrite (filter_filter_negb (fun c => comment_postId c =? P)).
  repeat split. simpl. now rewrite map_get_delete_same.
Qed.

(** X20. The delete-post handler answers 404 for an identity that no post
    has and 403 for a post of another user, and leaves the store as it was in
    both cases.  It answers 204 only for a post that the viewer wrote, and on a
    reachable store the post, its likes and its comments are then gone. *)
Theorem delete_post_only_by_owner (s : MemStorage) (viewer postId : Z) :
  (map_get (posts s) postId = None ->
   Routes.delete_post s (Routes.mkRequest (Some viewer) (Some postId))
   = (Routes.mkResponse 404 (Routes.Text "Post not found"), s))
  /\ (forall p, map_get (posts s) postId = Some p -> post_userId p <> viewer ->
        Routes.delete_post s (Routes.mkRequest (Some viewer) (Some postId))
        = (Routes.mkResponse 403 (Routes.Text "Unauthorized"), s))
  /\ (forall p, map_get (posts s) postId = Some p -> post_userId p = viewer ->
        reachable s ->
        fst (Routes.delete_post s (Routes.mkRequest (Some viewer) (Some postId)))
        = Routes.mkResponse 204 Routes.NoBody
        /\ getPost (snd (Routes.delete_post s (Routes.mkRequest (Some viewer) (Some postId))))
                   postId = None
        /\ getLikesByPost
             (snd (Routes.delete_post s (Routes.mkRequest (Some viewer) (Some postId))))
             postId = []
        /\ getCommentsByPost
             (snd (Routes.delete_post s (Routes.mkRequest (Some viewer) (Some postId))))
             postId = [])
  /\ (forall req,
        Routes.status (fst (Routes.delete_post s req)) = 204 ->
        exists v id p, Routes.req_user req = Some v /\ Routes.req_params_id req = Some id
                       /\ map_get (posts s) id = Some p /\ post_userId p = v).
Proof.
  split; [|split; [|split]].
  - intros Hg. unfold Routes.delete_post, getPost. simpl. now rewrite Hg.
  - intros p Hg Hne. unfold Routes.delete_post, getPost. simpl. rewrite Hg. simpl.
    destruct (Z.eqb_spec (post_userId p) viewer); [contradiction|reflexivity].
  - intros p Hg Ho Hr.
    assert (E : Routes.delete_post s (Routes.mkRequest (Some viewer) (Some postId))
                = (Routes.mkResponse 204 Routes.NoBody, snd (deletePost s postId))).
    { unfold Routes.delete_post, getPost. simpl. rewrite Hg. simpl.
      now rewrite Ho, Z.eqb_refl. }
    rewrite E. cbn [fst snd]. split; [reflexivity|].
    now apply deletePost_clears, reachable_store_ok.
  - intros [u i]. unfold Routes.delete_post, getPost. simpl.
    destruct u as [v|]; simpl; [|discriminate].
    destruct i as [id|]; simpl; [|discriminate].
    destruct (map_get (posts s) id) as [p|] eqn:Hg; simpl; [|discriminate].
    destruct (Z.eqb_spec (post_userId p) v) as [E|E]; simpl; [|discriminate].
    intros _. exists v, id, p. auto.
Qed.

(** Post 1 of [store_with_follow] belongs to user 2. *)
Lemma delete_post_only_by_owner_witness :
  Routes.delete_post store_with_follow (Routes.mkRequest (Some 1) (Some 1))
  = (Routes.mkResponse 403 (Routes.Text "Unauthorized"), store_with_follow)
  /\ fst (Routes.delete_post store_with_follow (Routes.mkRequest (Some 2) (Some 1)))
     = Routes.mkResponse 204 Routes.NoBody
  /\ getPost (snd (Routes.delete_post store_with_follow (Routes.mkRequest (Some 2) (Some 1)))) 1
     = None.
Proof.
  destruct (delete_post_only_by_owner store_with_follow 1 1) as (_ & H2 & _).
  destruct (delete_post_only_by_owner store_with_follow 2 1) as (_ & _ & H3 & _).
  split.
  - apply (H2 (mkPost 1 2 "hello" None 110)); [reflexivity | discriminate].
  - destruct (H3 (mkPost 1 2 "hello" None 110) eq_refl eq_refl (reachable_run _))
      as (E1 & E2 & _).
    split; [exact E1 | exact E2].
Defined.

(** X21. The delete-comment handler reads the comments map of the store
    object itself.  With the [DatabaseStorage] that the module exports it
    throws on every authenticated request with a numeric identity, whatever
    the tables hold, so no comment is deleted through it.  With a reachable
    [MemStorage] it answers 404 for an identity that no comment has and 403
    for a comment of another user, the store unchanged; for a comment that the
    viewer wrote it answers 204, and the comment is then gone while every
    other comment stays. *)
Theorem delete_comment_only_by_author (s : MemStorage) (viewer commentId : Z) :
  reachable s ->
  (forall db,
     Routes.delete_comment (Routes.Relational db)
                           (Routes.mkRequest (Some viewer) (Some commentId))
     = ThrowTypeError)
  /\ (map_get (comments s) commentId = None ->
      Routes.delete_comment (Routes.InMemory s)
                            (Routes.mkRequest (Some viewer) (Some commentId))
      = Return (Routes.mkResponse 404 (Routes.Text "Comment not found"),
                Routes.InMemory s))
  /\ (forall c, map_get (comments s) commentId = Some c -> comment_userId c <> viewer ->
        Routes.delete_comment (Routes.InMemory s)
                              (Routes.mkRequest (Some viewer) (Some commentId))
        = Return (Routes.mkResponse 403 (Routes.Text "Unauthorized"), Routes.InMemory s))
  /\ (forall c, map_get (comments s) commentId = Some c -> comment_userId c = viewer ->
        Routes.delete_comment (Routes.InMemory s)
                              (Routes.mkRequest (Some viewer) (Some commentId))
        = Return (Routes.mkResponse 204 Routes.NoBody,
                  Routes.InMemory (snd (deleteComment s commentId)))
        /\ map_get (comments (snd (deleteComment s commentId))) commentId = None
        /\ forall k, k <> commentId ->
             map_get (comments (snd (deleteComment s commentId))) k
             = map_get (comments s) k).
Proof.
  intros Hr. destruct (reachable_store_ok s Hr) as (_ & _ & Hc & _).
  split; [reflexivity|].
  unfold Routes.delete_comment. simpl.
  rewrite (table_find_by_id comment_id _ _ commentId Hc).
  split; [|split].
  - intros Hg. now rewrite Hg.
  - intros c Hg Hne. rewrite Hg.
    destruct (Z.eqb_spec (comment_userId c) viewer); [contradiction|reflexivity].
  - intros c Hg Ho. rewrite Hg, Ho, Z.eqb_refl. simpl.
    split; [reflexivity|]. split; [apply map_get_delete_same|].
    intros k Hk. now apply map_get_delete_other.
Qed.

(** The comment of [store_with_two_posts] was written by user 1. *)
Lemma delete_comment_only_by_author_witness :
  Routes.delete_comment (Routes.Relational (rows store_with_two_posts))
                        (Routes.mkRequest (Some 1) (Some 1))
  = ThrowTypeError
  /\ Routes.delete_comment (Routes.InMemory store_with_two_posts)
                           (Routes.mkRequest (Some 2) (Some 1))
     = Return (Routes.mkResponse 403 (Routes.Text "Unauthorized"),
               Routes.InMemory store_with_two_posts)
  /\ Routes.delete_comment (Routes.InMemory store_with_two_posts)
                           (Routes.mkRequest (Some 1) (Some 1))
     = Return (Routes.mkResponse 204 Routes.NoBody,
               Routes.InMemory (snd (deleteComment store_with_two_posts 1)))
  /\ Routes.delete_comment (Routes.InMemory store_with_two_posts)
                           (Routes.mkRequest (Some 1) (Some 8))
     = Return (Routes.mkResponse 404 (Routes.Text "Comment not found"),
               Routes.InMemory store_with_two_posts).
Proof.
  destruct (delete_comment_only_by_author store_with_two_posts 2 1 (reachable_run _))
    as (_ & _ & H2 & _).
  destruct (delete_comment_only_by_author store_with_two_posts 1 1 (reachable_run _))
    as (H0 & _ & _ & H3).
  destruct (delete_comment_only_by_author store_with_two_posts 1 8 (reachable_run _))
    as (_ & H1 & _).
  split; [apply H0|]. split; [|split].
  - apply (H2 (mkComment 1 2 1 "nice" 150)); [reflexivity | discriminate].
  - destruct (H3 (mkComment 1 2 1 "nice" 150) eq_refl eq_refl) as [E _]. exact E.
  - apply H1. reflexivity.
Defined.

(** ** The LIKE search of DatabaseStorage *)

Lemma sql_like_percent (p x : string) :
  DatabaseStorage.sql_like (String "%" p) x
  = DatabaseStorage.sql_like p x
    || match x with
       | EmptyString => false
       | String _ x' => DatabaseStorage.sql_like (String "%" p) x'
       end.
Proof. destruct x; reflexivity. Qed.

Lemma sql_like_plain_char (c : ascii) (p x : string) :
  Ascii.eqb c "%" = false -> Ascii.eqb c "_" = false ->
  Ascii.eqb c DatabaseStorage.backslash = false ->
  DatabaseStorage.sql_like (String c p) x
  = match x with
    | EmptyString => false
    | String d x' => Ascii.eqb c d && DatabaseStorage.sql_like p x'
    end.
Proof. intros H1 H2 H3. simpl. now rewrite H1, H2, H3. Qed.

Lemma sql_like_any (x : string) : DatabaseStorage.sql_like "%" x = true.
Proof.
  induction x as [|c x IH]; [reflexivity|].
  rewrite sql_like_percent, IH. apply orb_true_r.
Qed.

(** A plain pattern followed by [%] matches the strings it is a prefix of. *)
Lemma sql_like_plain_prefix (q x : string) :
  plain_query q = true ->
  DatabaseStorage.sql_like (q ++ "%") x = startsWith x q.
Proof.
  revert x. induction q as [|c q IH]; intros x Hq.
  - simpl append. rewrite sql_like_any. reflexivity.
  - simpl in Hq. apply andb_true_iff in Hq. destruct Hq as [Hq Hq'].
    apply andb_true_iff in Hq. destruct Hq as [Hq H3].
    apply andb_true_iff in Hq. destruct Hq as [H1 H2].
    apply negb_true_iff in H1, H2, H3.
    change ((String c q ++ "%")%string) with (String c (q ++ "%")).
    rewrite (sql_like_plain_char c _ x H1 H2 H3).
    destruct x as [|d x]; simpl; [reflexivity|]. now rewrite IH.
Qed.

Lemma like_plain_includes (column q : string) :
  plain_query q = true -> DatabaseStorage.like column q = includes column q.
Proof.
  intros Hq. unfold DatabaseStorage.like.
  induction column as [|c x IH].
  - rewrite sql_like_percent, (sql_like_plain_prefix q _ Hq). simpl.
    now rewrite !orb_false_r.
  - rewrite sql_like_percent, (sql_like_plain_prefix q _ Hq), IH. reflexivity.
Qed.

(** X22. For a query that is not empty and holds none of [%], [_] and the
    backslash, [DatabaseStorage.searchUsers] returns exactly the users whose
    username or display name holds the query as it is written (case
    included), in the order of the table. *)
Theorem database_search_plain_query (db : DatabaseStorage.Database) (q : string) :
  plain_query q = true ->
  q <> EmptyString ->
  DatabaseStorage.searchUsers db q
  = filter (fun u => includes (user_username u) q || includes (user_displayName u) q)
           (DatabaseStorage.users db)
  /\ forall u, In u (DatabaseStorage.searchUsers db q)
               <-> In u (DatabaseStorage.users db)
                   /\ (occurs_in q (user_username u) \/ occurs_in q (user_displayName u)).
Proof.
  intros Hq Hne.
  assert (E : DatabaseStorage.searchUsers db q
              = filter (fun u => includes (user_username u) q
                                 || includes (user_displayName u) q)
                       (DatabaseStorage.users db)).
  { unfold DatabaseStorage.searchUsers. destruct q as [|c q]; [contradiction|].
    cbn [is_empty]. apply filter_ext. intros u.
    now rewrite !(like_plain_includes _ _ Hq). }
  split; [exact E|].
  intros u. rewrite E, filter_In, orb_true_iff, !includes_spec. reflexivity.
Qed.

Lemma database_search_plain_query_witness :
  map user_username (DatabaseStorage.searchUsers (rows store_with_handles) "li")
  = ["alice"; "alison"]%string
  /\ DatabaseStorage.searchUsers (rows store_with_handles) "li"
     = filter (fun u => includes (user_username u) "li" || includes (user_displayName u) "li")
              (DatabaseStorage.users (rows store_with_handles)).
Proof.
  split; [reflexivity|].
  destruct (database_search_plain_query (rows store_with_handles) "li") as [E _].
  - reflexivity.
  - discriminate.
  - exact E.
Defined.

(** ** Dispatch over the route table *)

Lemma first_match_from (table : list Router.Route) (m : Router.Method) (path : list string)
      (i j : nat) :
  Router.first_match table m path i = Some j -> (i <= j)%nat.
Proof.
  revert i. induction table as [|r table IH]; simpl; intros i H; [discriminate|].
  destruct (Router.Method_eqb (Router.method r) m && Router.matches (Router.pattern r) path).
  - injection H as <-. apply Nat.le_refl.
  - apply IH in H. apply Nat.le_trans with (S i); auto.
Qed.

Lemma first_match_app (auth table : list Router.Route) (m : Router.Method)
      (path : list string) (i : nat) :
  Router.first_match (auth ++ table) m path i
  = match Router.first_match auth m path i with
    | Some j => Some j
    | None => Router.first_match table m path (i + List.length auth)
    end.
Proof.
  revert i. induction auth as [|r auth IH]; simpl; intros i.
  - now rewrite Nat.add_0_r.
  - destruct (Router.Method_eqb (Router.method r) m
              && Router.matches (Router.pattern r) path); [reflexivity|].
    rewrite IH. now rewrite Nat.add_succ_r.
Qed.

Lemma first_match_shift (table : list Router.Route) (m : Router.Method)
      (path : list string) (i : nat) :
  Router.first_match table m path i
  = option_map (fun j => (j + i)%nat) (Router.first_match table m path 0).
Proof.
  revert i. induction table as [|r table IH]; simpl; intros i; [reflexivity|].
  destruct (Router.Method_eqb (Router.method r) m
            && Router.matches (Router.pattern r) path); [reflexivity|].
  rewrite (IH (S i)), (IH 1%nat).
  destruct (Router.first_match table m path 0); simpl; [|reflexivity].
  f_equal. rewrite <- Nat.add_assoc. reflexivity.
Qed.

Lemma first_match_hit (table : list Router.Route) (m : Router.Method) (path : list string)
      (i j : nat) :
  Router.first_match table m path i = Some j ->
  exists r, nth_error table (j - i) = Some r
            /\ Router.Method_eqb (Router.method r) m = true
            /\ Router.matches (Router.pattern r) path = true.
Proof.
  revert i. induction table as [|r table IH]; simpl; intros i H; [discriminate|].
  destruct (Router.Method_eqb (Router.method r) m) eqn:Em;
    [destruct (Router.matches (Router.pattern r) path) eqn:Ep|]; simpl in H.
  - injection H as <-. rewrite Nat.sub_diag. exists r. auto.
  - pose proof (first_match_from _ _ _ _ _ H) as Hle.
    destruct (IH _ H) as [r' (Hn & Hr)]. exists r'. split; auto.
    replace (j - i)%nat with (S (j - S i)) by lia. exact Hn.
  - pose proof (first_match_from _ _ _ _ _ H) as Hle.
    destruct (IH _ H) as [r' (Hn & Hr)]. exists r'. split; auto.
    replace (j - i)%nat with (S (j - S i)) by lia. exact Hn.
Qed.

(** A path that the search pattern matches is matched by the pattern of the
    user-by-id route. *)
Lemma search_pattern_is_covered (path : list string) :
  Router.matches [Router.Lit "api"; Router.Lit "users"; Router.Lit "search"] path = true ->
  Router.matches [Router.Lit "api"; Router.Lit "users"; Router.Param] path = true.
Proof.
  destruct path as [|a [|b [|c path]]]; cbn [Router.matches]; try discriminate;
    rewrite ?andb_false_r; try discriminate.
  intros H. apply andb_true_iff in H. destruct H as [Ha H].
  apply andb_true_iff in H. destruct H as [Hb H].
  apply andb_true_iff in H. destruct H as [Hc H].
  rewrite Ha, Hb, H. cbn [andb]. rewrite andb_true_r.
  destruct c; [discriminate | reflexivity].
Qed.

Lemma search_is_matched_earlier (m : Router.Method) (path : list string) :
  Router.first_match Router.registerRoutes m path 0 = Some Router.search_route -> False.
Proof.
  intros H. destruct (first_match_hit _ _ _ _ _ H) as [r (Hn & Hm & Hp)].
  injection Hn as <-. simpl in Hm, Hp.
  apply search_pattern_is_covered in Hp.
  destruct m; try discriminate.
  unfold Router.registerRoutes in H. cbn [Router.first_match Router.method Router.pattern] in H.
  rewrite Hp in H. discriminate.
Qed.

Lemma first_match_bound (table : list Router.Route) (m : Router.Method) (path : list string)
      (i j : nat) :
  Router.first_match table m path i = Some j -> (j < i + List.length table)%nat.
Proof.
  revert i. induction table as [|r table IH]; simpl; intros i H; [discriminate|].
  destruct (Router.Method_eqb (Router.method r) m && Router.matches (Router.pattern r) path).
  - injection H as <-. lia.
  - apply IH in H. lia.
Qed.

(** X23. The handler registered for GET /api/users/search is never the one
    that runs: whatever routes [setupAuth] registered before, no request is
    dispatched to it, because every path that its pattern matches is matched
    by /api/users/:id, registered earlier; GET /api/users/search itself goes
    to the user-by-id handler.  It is the only route of the table that is
    shadowed: every other route is the first match of a path made for it. *)
Theorem search_route_is_shadowed
  (auth : list Router.Route) (m : Router.Method) (path : list string) :
  (Router.first_match (auth ++ Router.registerRoutes) m path 0
   = Some (List.length auth + Router.search_route)%nat -> False)
  /\ Router.first_match Router.registerRoutes Router.GET
                        ["api"; "users"; "search"]%string 0
     = Some Router.user_by_id_route
  /\ (forall i r,
        nth_error Router.registerRoutes i = Some r ->
        i <> Router.search_route ->
        Router.first_match Router.registerRoutes (Router.method r)
                           (Router.sample_path (Router.pattern r)) 0
        = Some i).
Proof.
  split; [|split].
  - rewrite first_match_app.
    destruct (Router.first_match auth m path 0) as [j|] eqn:E.
    + apply first_match_bound in E. intros H. injection H as ->. lia.
    + rewrite first_match_shift.
      destruct (Router.first_match Router.registerRoutes m path 0) as [j|] eqn:E';
        simpl; [|discriminate].
      intros H. injection H as H.
      assert (j = Router.search_route) by lia. subst j.
      exact (search_is_matched_earlier _ _ E').
  - reflexivity.
  - intros i r Hn Hi.
    do 17 (destruct i as [|i];
           [injection Hn as <-; first [reflexivity | exfalso; apply Hi; reflexivity]|]).
    destruct i; discriminate.
Qed.

(** ** User statistics *)

(** X24. [getUserWithStats] returns nothing for a user that does not exist.
    For one that exists its two counts are the numbers of Follow rows that
    name the user as followed and as follower (a row is counted also when the
    user at its other end is unknown), and on a store without self-follow
    rows a user who views its own profile gets [isFollowing] false. *)
Theorem getUserWithStats_counts (s : MemStorage) (U : Z) (viewer : option Z) :
  (getUser s U = None -> getUserWithStats s U viewer = None)
  /\ (forall user,
        getUser s U = Some user ->
        exists uw,
          getUserWithStats s U viewer = Some uw
          /\ us_user uw = user
          /\ us_followersCount uw
             = array_length (filter (fun f => follow_followingId f =? U)
                                    (map_values (follows s)))
          /\ us_followingCount uw
             = array_length (filter (fun f => follow_followerId f =? U)
                                    (map_values (follows s))))
  /\ (forall user,
        getUser s U = Some user -> no_self_follow s -> U <> 0 ->
        option_map us_isFollowing (getUserWithStats s U (Some U)) = Some (Some false)).
Proof.
  unfold getUserWithStats. split; [|split].
  - intros Hg. now rewrite Hg.
  - intros user Hg. rewrite Hg. eexists. split; [reflexivity|]. simpl.
    unfold getFollowers, getFollowing, array_length. rewrite !length_map. auto.
  - intros user Hg Hs HU. rewrite Hg, (truthy_nonzero U HU). simpl.
    destruct (getFollow s U U) as [f|] eqn:E; [|reflexivity].
    exfalso. destruct (getFollow_Some_row _ _ _ _ E) as (Hin & Ha & Hb).
    unfold no_self_follow in Hs. rewrite Forall_forall in Hs.
    apply (Hs f Hin). congruence.
Qed.

(** In [store_unknown_follower] user 1 is followed by an identity that no
    user has, and the row is counted. *)
Lemma getUserWithStats_counts_witness :
  option_map us_followersCount (getUserWithStats store_unknown_follower 1 None) = Some 1
  /\ getUserWithStats store_unknown_follower 7 None = None
  /\ option_map us_isFollowing (getUserWithStats store_with_follow 1 (Some 1))
     = Some (Some false).
Proof.
  destruct (getUserWithStats_counts store_unknown_follower 7 None) as (H1 & _).
  destruct (getUserWithStats_counts store_with_follow 1 None) as (_ & _ & H3).
  split; [reflexivity|]. split; [apply H1; reflexivity|].
  apply (H3 (mkUser 1 "alice" "pw" "Alice" None
                    (Some "https://randomuser.me/api/portraits/women/44.jpg"%string) 100)).
  - reflexivity.
  - exact (proj2 (proj2 store_with_follow_pairs_unique)).
  - discriminate.
Defined.

(** ** The flags for a viewer of the store *)


